(** * node-manager: version parsing, comparison and discovery

    Shallow embedding of [src/node-manager.ts] (class [NodeManager]) together
    with the parts of its collaborators that decide its behaviour: the
    JavaScript string primitives it calls, the [semver] package ([parse],
    [compare], the [SemVer] class) and an explicit host record standing for
    the process, file-system and path facilities of Node.js.

    Strings.  A JavaScript string is modelled by the Rocq [string] holding
    its UTF-8 encoding.  Every character the code inspects is ASCII, so the
    regular expressions, [startsWith], [split] and [===] read the same on
    both encodings; the two places where the encodings differ ([length],
    counted in UTF-16 code units, and the non-ASCII white space removed by
    [trim]) are written out below. *)

From Stdlib Require Import Strings.String Strings.Ascii.
From Stdlib Require Import Lists.List Bool.Bool Arith.Arith.
From Stdlib Require Import NArith.NArith ZArith.ZArith Lia.
From Stdlib Require Import Numbers.DecimalString Numbers.DecimalN Numbers.DecimalFacts.
From Stdlib Require Import Sorting.Permutation Sorting.Sorted.
From Stdlib Require Import Structures.OrderedTypeEx.
Import ListNotations.

Local Open Scope list_scope.
Local Open Scope string_scope.

(* ================================================================== *)
(** * Completions: values returned or exceptions thrown *)

Module Js.

(** A thrown JavaScript [Error] object: its [name] and its [message]. *)
Record JsError : Type := mkError { error_name : string; error_message : string }.

(** [Error.prototype.toString], as used by template-literal interpolation. *)
Definition Error_toString (e : JsError) : string :=
  if (error_name e =? "")%string then error_message e
  else if (error_message e =? "")%string then error_name e
  else error_name e ++ ": " ++ error_message e.

Definition TypeError (msg : string) : JsError := mkError "TypeError" msg.
Definition Error (msg : string) : JsError := mkError "Error" msg.

(** The outcome of evaluating an expression, or of awaiting a promise. *)
Inductive Completion (A : Type) : Type :=
| Normal (a : A)
| Throw (e : JsError).
Arguments Normal {A} a.
Arguments Throw {A} e.

Definition bind {A B} (m : Completion A) (k : A -> Completion B) : Completion B :=
  match m with
  | Normal a => k a
  | Throw e => Throw e
  end.

(** [try { body } catch (e) { handler e }], also [promise.catch(handler)]. *)
Definition try_catch {A} (body : Completion A) (handler : JsError -> Completion A)
  : Completion A :=
  match body with
  | Normal a => Normal a
  | Throw e => handler e
  end.

Definition returns {A} (m : Completion A) : Prop := exists a, m = Normal a.

End Js.
Export Js.

Notation "x <- m ;; k" := (bind m (fun x => k))
  (at level 61, m at next level, right associativity).

(* ================================================================== *)
(** * JavaScript string primitives *)

Module Str.

Definition code (c : ascii) : N := N_of_ascii c.

Definition is_digit (c : ascii) : bool := ((48 <=? code c) && (code c <=? 57))%N.
Definition is_letter (c : ascii) : bool :=
  (((65 <=? code c) && (code c <=? 90)) || ((97 <=? code c) && (code c <=? 122)))%N.
Definition is_dash (c : ascii) : bool := (code c =? 45)%N.

Fixpoint forallb (f : ascii -> bool) (s : string) : bool :=
  match s with
  | EmptyString => true
  | String c r => f c && forallb f r
  end.

Fixpoint existsb (f : ascii -> bool) (s : string) : bool :=
  match s with
  | EmptyString => false
  | String c r => f c || existsb f r
  end.

(** [s.length]: the number of UTF-16 code units of the string encoded by
    [s].  Every code point counts once (its first byte is not a
    continuation byte [10xxxxxx]); a four-byte sequence (lead byte at least
    [0xF0]) is a surrogate pair and counts twice. *)
Definition units (c : ascii) : nat :=
  if ((128 <=? code c) && (code c <? 192))%N then 0
  else if (240 <=? code c)%N then 2 else 1.

Fixpoint js_length (s : string) : nat :=
  match s with
  | EmptyString => 0
  | String c r => units c + js_length r
  end.

(** [s.startsWith(p)]. *)
Definition startsWith (p s : string) : bool := String.prefix p s.

(** [s.replace(/^v/, '')]: one leading "v" is removed when there is one. *)
Definition replace_leading_v (s : string) : string :=
  match s with
  | String "v" r => r
  | _ => s
  end.

(** [s.split(sep)] for a one-character separator. *)
Fixpoint split (sep : ascii) (s : string) : list string :=
  match s with
  | EmptyString => [EmptyString]
  | String c r =>
      if Ascii.eqb c sep then EmptyString :: split sep r
      else match split sep r with
           | [] => [String c EmptyString]
           | w :: ws => String c w :: ws
           end
  end.

(** [l.join(sep)]. *)
Definition join (sep : string) (l : list string) : string := String.concat sep l.

(** The first occurrence of [sep] cuts [s] in two; [None] when [sep] does
    not occur. *)
Fixpoint cut (sep : ascii) (s : string) : string * option string :=
  match s with
  | EmptyString => (EmptyString, None)
  | String c r =>
      if Ascii.eqb c sep then (EmptyString, Some r)
      else let '(a, b) := cut sep r in (String c a, b)
  end.

Fixpoint rev_append (s acc : string) : string :=
  match s with
  | EmptyString => acc
  | String c r => rev_append r (String c acc)
  end.
Definition rev (s : string) : string := rev_append s EmptyString.

Fixpoint of_codes (l : list N) : string :=
  match l with
  | [] => EmptyString
  | n :: r => String (ascii_of_N n) (of_codes r)
  end.

(** The characters [trim] removes (ECMAScript WhiteSpace and
    LineTerminator), each by the bytes of its UTF-8 encoding: TAB, LF, VT,
    FF, CR, SPACE, U+00A0, U+1680, U+2000 to U+200A, U+2028, U+2029, U+202F,
    U+205F, U+3000 and U+FEFF. *)
Definition whitespace : list string :=
  map of_codes
    [ [9]; [10]; [11]; [12]; [13]; [32]; [194; 160]; [225; 154; 128];
      [226; 128; 128]; [226; 128; 129]; [226; 128; 130]; [226; 128; 131];
      [226; 128; 132]; [226; 128; 133]; [226; 128; 134]; [226; 128; 135];
      [226; 128; 136]; [226; 128; 137]; [226; 128; 138];
      [226; 128; 168]; [226; 128; 169]; [226; 128; 175]; [226; 129; 159];
      [227; 128; 128]; [239; 187; 191] ]%N.

(** [drop_prefix p s] is what follows [p] in [s], when [s] starts with [p]. *)
Fixpoint drop_prefix (p s : string) : option string :=
  match p, s with
  | EmptyString, _ => Some s
  | String a p', String b s' => if Ascii.eqb a b then drop_prefix p' s' else None
  | String _ _, EmptyString => None
  end.

Fixpoint drop_any (ps : list string) (s : string) : option string :=
  match ps with
  | [] => None
  | p :: ps' =>
      match drop_prefix p s with
      | Some r => Some r
      | None => drop_any ps' s
      end
  end.

Fixpoint strip (ps : list string) (fuel : nat) (s : string) : string :=
  match fuel with
  | O => s
  | S fuel' =>
      match drop_any ps s with
      | Some r => strip ps fuel' r
      | None => s
      end
  end.

Definition trimStart (s : string) : string := strip whitespace (String.length s) s.

Definition trimEnd (s : string) : string :=
  rev (strip (map rev whitespace) (String.length s) (rev s)).

(** [s.trim()]. *)
Definition trim (s : string) : string := trimEnd (trimStart s).

(** The [<] of two strings: lexicographic on code units.  On the ASCII
    strings it is applied to below this is the order of the bytes. *)
Definition ltb (a b : string) : bool :=
  match String.compare a b with
  | Lt => true
  | _ => false
  end.

Definition differs (sep : ascii) (c : ascii) : bool := negb (Ascii.eqb c sep).

(** No white-space sequence of [ps] starts with [c]. *)
Definition starts_none (ps : list string) (c : ascii) : bool :=
  List.forallb (fun p => match p with
                         | EmptyString => false
                         | String a _ => negb (Ascii.eqb a c)
                         end) ps.

(** The printable ASCII characters other than the space. *)
Definition is_graphic (c : ascii) : bool := ((33 <=? code c) && (code c <=? 126))%N.

End Str.

(* ================================================================== *)
(** * The [semver] package

    [semver] is a dependency of the repository, not part of it.  The
    definitions of this module follow the package's strict (non-loose)
    mode: [internal/constants.js], the [FULL] pattern of [internal/re.js],
    [internal/identifiers.js], the constructor, [format], [compare],
    [compareMain] and [comparePre] of [classes/semver.js], and
    [functions/parse.js] and [functions/compare.js]. *)

Module Semver.

Definition MAX_LENGTH : nat := 256.
Definition MAX_SAFE_INTEGER : N := 9007199254740991.

(** ** Numbers

    The numbers the package handles are non-negative integers held in
    IEEE-754 doubles.  [round_double n] is the double nearest to the
    integer [n] (ties to even): integers up to [2^53] are exact, beyond
    that only 53 significant bits are kept. *)
Definition round_double (n : N) : N :=
  if (n <=? 2 ^ 53)%N then n
  else
    let e := (N.log2 n - 52)%N in
    let q := N.shiftr n e in
    let r := (n mod 2 ^ e)%N in
    let half := (2 ^ (e - 1))%N in
    let q' := if (r <? half)%N then q
              else if (half <? r)%N then (q + 1)%N
              else if N.even q then q else (q + 1)%N in
    (q' * 2 ^ e)%N.

(** The mathematical value of a string of decimal digits. *)
Definition digits_value (s : string) : N :=
  match NilEmpty.uint_of_string s with
  | Some d => N.of_uint d
  | None => 0%N
  end.

(** Unary [+] on a string of decimal digits. *)
Definition Number_of_string (s : string) : N := round_double (digits_value s).

(** [String(n)] for an integer up to [MAX_SAFE_INTEGER]: its decimal digits. *)
Definition Number_toString (n : N) : string := NilEmpty.string_of_uint (N.to_uint n).

(** ** The [FULL] pattern

    With LDN for the character class [a-zA-Z0-9-]:
    - NUMERICIDENTIFIER is "0", or a digit from 1 to 9 followed by digits;
    - NONNUMERICIDENTIFIER is any digits, then a letter or a dash, then any
      LDN characters;
    - MAINVERSION is three captured NUMERICIDENTIFIERs separated by dots;
    - PRERELEASEIDENTIFIER is NUMERICIDENTIFIER or NONNUMERICIDENTIFIER;
    - PRERELEASE is a dash followed by the captured dot-separated
      non-empty sequence of PRERELEASEIDENTIFIERs;
    - BUILDIDENTIFIER is one or more LDN characters;
    - BUILD is a plus sign followed by the captured dot-separated non-empty
      sequence of BUILDIDENTIFIERs;
    - FULL is, anchored at both ends, an optional "v", MAINVERSION, an
      optional PRERELEASE and an optional BUILD. *)

Definition is_LETTERDASHNUMBER (c : ascii) : bool :=
  Str.is_digit c || Str.is_letter c || Str.is_dash c.

Definition is_NUMERICIDENTIFIER (s : string) : bool :=
  match s with
  | EmptyString => false
  | String c r =>
      if Ascii.eqb c "0" then match r with EmptyString => true | _ => false end
      else Str.is_digit c && Str.forallb Str.is_digit r
  end.

Fixpoint is_NONNUMERICIDENTIFIER (s : string) : bool :=
  match s with
  | EmptyString => false
  | String c r =>
      if Str.is_digit c then is_NONNUMERICIDENTIFIER r
      else (Str.is_letter c || Str.is_dash c) && Str.forallb is_LETTERDASHNUMBER r
  end.

Definition is_PRERELEASEIDENTIFIER (s : string) : bool :=
  is_NUMERICIDENTIFIER s || is_NONNUMERICIDENTIFIER s.

Definition is_BUILDIDENTIFIER (s : string) : bool :=
  match s with
  | EmptyString => false
  | String _ _ => Str.forallb is_LETTERDASHNUMBER s
  end.

(** The capture groups of a match of [FULL]: [m[1]] to [m[5]]; the last two
    are [undefined] when their optional group took no part in the match. *)
Record Match : Type := mkMatch {
  m1 : string;
  m2 : string;
  m3 : string;
  m4 : option string;
  m5 : option string
}.

Definition identifiers_ok (ok : string -> bool) (group : option string) : bool :=
  match group with
  | None => true
  | Some g => List.forallb ok (Str.split "." g)
  end.

(** [s.match(FULL)].  No identifier holds a "+", so a build part starts at
    the first "+"; the main version holds no "-", so a prerelease part
    starts at the first "-" before that; the rest is cut at its dots. *)
Definition match_FULL (s : string) : option Match :=
  let s := Str.replace_leading_v s in
  let '(front, build) := Str.cut "+" s in
  let '(main, pre) := Str.cut "-" front in
  match Str.split "." main with
  | [a; b; c] =>
      if is_NUMERICIDENTIFIER a && is_NUMERICIDENTIFIER b && is_NUMERICIDENTIFIER c
         && identifiers_ok is_PRERELEASEIDENTIFIER pre
         && identifiers_ok is_BUILDIDENTIFIER build
      then Some (mkMatch a b c pre build)
      else None
  | _ => None
  end.

(** ** The [SemVer] class *)

(** A prerelease identifier: a number, or a string. *)
Inductive Identifier : Type :=
| IdNum (n : N)
| IdStr (s : string).

Record SemVer : Type := mkSemVer {
  raw : string;
  major : N;
  minor : N;
  patch : N;
  prerelease : list Identifier;
  build : list string;
  version : string
}.

(** [/^[0-9]+$/.test(id)] on a string. *)
Definition numeric_test (id : string) : bool :=
  match id with
  | EmptyString => false
  | String _ _ => Str.forallb Str.is_digit id
  end.

(** The callback of [m[4].split('.').map(...)]: numeric identifiers below
    [MAX_SAFE_INTEGER] become numbers. *)
Definition numberify (id : string) : Identifier :=
  if numeric_test id then
    let num := Number_of_string id in
    if (num <? MAX_SAFE_INTEGER)%N then IdNum num else IdStr id
  else IdStr id.

Definition Identifier_toString (i : Identifier) : string :=
  match i with
  | IdNum n => Number_toString n
  | IdStr s => s
  end.

(** [format()]: the value stored in the [version] field. *)
Definition format (major minor patch : N) (prerelease : list Identifier) : string :=
  let version :=
    Number_toString major ++ "." ++ Number_toString minor ++ "." ++ Number_toString patch in
  match prerelease with
  | [] => version
  | _ :: _ => version ++ "-" ++ Str.join "." (map Identifier_toString prerelease)
  end.

(** [new SemVer(version)] for a string [version]. *)
Definition SemVer_new (version : string) : Completion SemVer :=
  if (MAX_LENGTH <? Str.js_length version)%nat then
    Throw (TypeError "version is longer than 256 characters")
  else
    match match_FULL (Str.trim version) with
    | None => Throw (TypeError ("Invalid Version: " ++ version))
    | Some m =>
        let major := Number_of_string (m1 m) in
        let minor := Number_of_string (m2 m) in
        let patch := Number_of_string (m3 m) in
        if (MAX_SAFE_INTEGER <? major)%N then Throw (TypeError "Invalid major version")
        else if (MAX_SAFE_INTEGER <? minor)%N then Throw (TypeError "Invalid minor version")
        else if (MAX_SAFE_INTEGER <? patch)%N then Throw (TypeError "Invalid patch version")
        else
          let prerelease :=
            match m4 m with
            | None => []
            | Some g => map numberify (Str.split "." g)
            end in
          let build :=
            match m5 m with
            | None => []
            | Some g => Str.split "." g
            end in
          Normal (mkSemVer version major minor patch prerelease build
                    (format major minor patch prerelease))
    end.

(** [semver.parse(version)]: the constructor's errors are caught. *)
Definition parse (version : string) : Completion (option SemVer) :=
  try_catch (v <- SemVer_new version ;; Normal (Some v)) (fun _ => Normal None).

(** ** Comparison *)

Definition Identifier_numeric (i : Identifier) : bool :=
  match i with
  | IdNum _ => true
  | IdStr s => numeric_test s
  end.

Definition Identifier_number (i : Identifier) : N :=
  match i with
  | IdNum n => n
  | IdStr s => Number_of_string s
  end.

(** [a === b] on identifiers. *)
Definition Identifier_eqb (a b : Identifier) : bool :=
  match a, b with
  | IdNum x, IdNum y => (x =? y)%N
  | IdStr s, IdStr t => (s =? t)%string
  | _, _ => false
  end.

(** [compareIdentifiers(a, b)].  When both are numeric they are compared as
    numbers; otherwise [<] is only reached with two non-numeric strings. *)
Definition compareIdentifiers (a b : Identifier) : Z :=
  let anum := Identifier_numeric a in
  let bnum := Identifier_numeric b in
  if anum && bnum then
    let x := Identifier_number a in
    let y := Identifier_number b in
    if (x =? y)%N then 0%Z else if (x <? y)%N then (-1)%Z else 1%Z
  else if Identifier_eqb a b then 0%Z
  else if anum && negb bnum then (-1)%Z
  else if bnum && negb anum then 1%Z
  else if Str.ltb (Identifier_toString a) (Identifier_toString b) then (-1)%Z
  else 1%Z.

(** [a || b] on numbers. *)
Definition or_else (a b : Z) : Z := if (a =? 0)%Z then b else a.

Definition compareMain (this other : SemVer) : Z :=
  or_else (compareIdentifiers (IdNum (major this)) (IdNum (major other)))
    (or_else (compareIdentifiers (IdNum (minor this)) (IdNum (minor other)))
       (compareIdentifiers (IdNum (patch this)) (IdNum (patch other)))).

(** The [do ... while (++i)] loop of [comparePre], from index [i] on. *)
Fixpoint comparePre_loop (a b : list Identifier) : Z :=
  match a, b with
  | [], [] => 0%Z
  | _ :: _, [] => 1%Z
  | [], _ :: _ => (-1)%Z
  | x :: a', y :: b' =>
      if Identifier_eqb x y then comparePre_loop a' b'
      else compareIdentifiers x y
  end.

Definition comparePre (this other : SemVer) : Z :=
  match prerelease this, prerelease other with
  | _ :: _, [] => (-1)%Z
  | [], _ :: _ => 1%Z
  | [], [] => 0%Z
  | a, b => comparePre_loop a b
  end.

(** [this.compare(other)] of the class. *)
Definition SemVer_compare (this other : SemVer) : Z :=
  if (version other =? version this)%string then 0%Z
  else or_else (compareMain this other) (comparePre this other).

(** [semver.compare(a, b)]. *)
Definition compare (a b : string) : Completion Z :=
  this <- SemVer_new a ;;
  other <- SemVer_new b ;;
  Normal (SemVer_compare this other).

End Semver.

(* ================================================================== *)
(** * Ranges of the [semver] package

    [functions/satisfies.js] and the [test] method of [classes/range.js].
    Parsing a range and testing a constructed version against its
    comparator sets are left to an engine: the code below is what lies
    between [satisfies] and those two. *)

Module SemverRange.
Import Semver.

Record Engine : Type := mkEngine {
  Range : Type;
  (** [new Range(range)]: the range, or the [TypeError] it throws. *)
  Range_new : string -> Completion Range;
  (** Some comparator set of the range accepts the version ([testSet]). *)
  Range_matches : Range -> SemVer -> bool
}.

(** [range.test(version)] for a string [version]: the empty string is
    falsy, and a string that is no version is caught. *)
Definition Range_test (E : Engine) (range : Range E) (version : string) : bool :=
  if (version =? "")%string then false
  else
    match SemVer_new version with
    | Normal v => Range_matches E range v
    | Throw _ => false
    end.

(** [semver.satisfies(version, range)] *)
Definition satisfies (E : Engine) (version range : string) : Completion bool :=
  try_catch (r <- Range_new E range ;; Normal (Range_test E r version))
    (fun _ => Normal false).

End SemverRange.

(* ================================================================== *)
(** * The strings the [FULL] pattern matches *)

Module Grammar.
Import Str Semver.

(** The text of an optional group with the sign that introduces it. *)
Definition group (sign : string) (g : option string) : string :=
  match g with
  | None => ""
  | Some x => sign ++ x
  end.

(** The string whose match has the capture groups [m]. *)
Definition render (m : Match) : string :=
  m1 m ++ "." ++ m2 m ++ "." ++ m3 m ++ group "-" (m4 m) ++ group "+" (m5 m).

(** The conditions the pattern puts on the groups. *)
Definition well_formed (m : Match) : bool :=
  is_NUMERICIDENTIFIER (m1 m) && is_NUMERICIDENTIFIER (m2 m)
  && is_NUMERICIDENTIFIER (m3 m)
  && identifiers_ok is_PRERELEASEIDENTIFIER (m4 m)
  && identifiers_ok is_BUILDIDENTIFIER (m5 m).

(** The fields the constructor computes from the groups of a match. *)
Definition prerelease_of (m : Match) : list Identifier :=
  match m4 m with
  | None => []
  | Some g => map numberify (split "." g)
  end.

Definition build_of (m : Match) : list string :=
  match m5 m with
  | None => []
  | Some g => split "." g
  end.

Definition of_match (raw : string) (m : Match) : SemVer :=
  let major := Number_of_string (m1 m) in
  let minor := Number_of_string (m2 m) in
  let patch := Number_of_string (m3 m) in
  mkSemVer raw major minor patch (prerelease_of m) (build_of m)
    (format major minor patch (prerelease_of m)).

(** The three numbers fit a safe integer. *)
Definition safe (m : Match) : Prop :=
  (Number_of_string (m1 m) <= MAX_SAFE_INTEGER)%N /\
  (Number_of_string (m2 m) <= MAX_SAFE_INTEGER)%N /\
  (Number_of_string (m3 m) <= MAX_SAFE_INTEGER)%N.

(** The groups of a match without its build part. *)
Definition without_build (m : Match) : Match :=
  mkMatch (m1 m) (m2 m) (m3 m) (m4 m) None.

(** The version constructed again from a [version] field. *)
Definition reread (p : SemVer) : SemVer :=
  mkSemVer (version p) (major p) (minor p) (patch p) (prerelease p) [] (version p).

End Grammar.

(* ================================================================== *)
(** * The host: what Node.js supplies to the manager *)

Module Host.

(** An [fs.Dirent], as returned by [readdir] with [withFileTypes]. *)
Record Dirent : Type := mkDirent {
  name : string;
  isDirectory : bool
}.

(** One snapshot of the machine the manager runs on.  [execa file args shell]
    is the awaited outcome of spawning [file]: its [stdout], or the
    rejection.  The [fs-extra] calls receive the configured directory as it
    is, also when it is [undefined]. *)
Record Host : Type := mkHost {
  os_homedir : string;
  path_join : list string -> string;
  process_arch : string;
  process_platform : string;
  execa : string -> list string -> bool -> Completion string;
  fs_pathExists : option string -> Completion bool;
  fs_readdir : option string -> Completion (list Dirent)
}.

(** [path.join(...)] called from JavaScript: an argument that is not a
    string is rejected with a [TypeError]. *)
Fixpoint strings_of (parts : list (option string)) : option (list string) :=
  match parts with
  | [] => Some []
  | None :: _ => None
  | Some p :: rest =>
      match strings_of rest with
      | Some ps => Some (p :: ps)
      | None => None
      end
  end.

Definition path_join_call (h : Host) (parts : list (option string)) : Completion string :=
  match strings_of parts with
  | Some ps => Normal (path_join h ps)
  | None => Throw (TypeError "The path argument must be of type string. Received undefined")
  end.

(** What [console.error] was called with. *)
Inductive ConsoleEvent : Type :=
| console_error (msg : string) (e : JsError).

(** [Array.prototype.sort(cmp)].  The language fixes the result for a
    consistent comparator: the stable arrangement in which [a] precedes [b]
    when [cmp a b < 0].  Insertion from the right computes it; an exception
    of the comparator ends the sort. *)
Section Sort.
Context {A : Type} (cmp : A -> A -> Completion Z).

Fixpoint insert (x : A) (l : list A) : Completion (list A) :=
  match l with
  | [] => Normal [x]
  | y :: t =>
      c <- cmp x y ;;
      if (c <=? 0)%Z then Normal (x :: y :: t)
      else t' <- insert x t ;; Normal (y :: t')
  end.

Fixpoint sort (l : list A) : Completion (list A) :=
  match l with
  | [] => Normal []
  | x :: t => t' <- sort t ;; insert x t'
  end.

(** The comparator lets [a] stand before [b]. *)
Definition before (a b : A) : Prop := exists z, cmp a b = Normal z /\ (z <= 0)%Z.
End Sort.

End Host.
Export Host.

(* ================================================================== *)
(** * [types.ts] and [node-manager.ts] *)

Module NodeManager.

Inductive Lts : Type :=
| LtsName (s : string)
| LtsFalse.

Record NodeVersion : Type := mkNodeVersion {
  version : string;
  major : N;
  minor : N;
  patch : N;
  lts : option Lts;
  date : option string
}.

(** [InstalledNodeVersion extends NodeVersion]: the inherited fields are
    those of [info]. *)
Record InstalledNodeVersion : Type := mkInstalled {
  info : NodeVersion;
  path : string;
  current : bool;
  default : bool
}.

(** An optional property of an object: absent, or present with a value
    that may itself be [undefined]. *)
Inductive Field (A : Type) : Type :=
| Absent
| Present (v : option A).
Arguments Absent {A}.
Arguments Present {A} v.

(** Reading a property: [undefined] when it is absent. *)
Definition get {A} (f : Field A) : option A :=
  match f with
  | Absent => None
  | Present v => v
  end.

Record NodeManagerConfig : Type := mkConfig {
  installDir : Field string;
  mirror : Field string;
  proxy : Field string;
  verbose : Field bool
}.

Record NodeEnvironment : Type := mkEnvironment {
  nodeVersion : string;
  npmVersion : string;
  nodePath : string;
  npmPath : string;
  arch : string;
  platform : string
}.

(** [{}] *)
Definition empty_config : NodeManagerConfig := mkConfig Absent Absent Absent Absent.

(** [a || b] on an optional string: [undefined] and the empty string are falsy. *)
Definition string_or (a : option string) (b : string) : string :=
  match a with
  | Some s => if (s =? "")%string then b else s
  | None => b
  end.

(** [a ?? b] *)
Definition nullish {A} (a : option A) (b : A) : A :=
  match a with
  | Some x => x
  | None => b
  end.

(** A property of [{ ..., key: base, ...config }]: an own property of the
    spread object, whatever its value, replaces the one written before. *)
Definition spread {A} (base : Field A) (over : Field A) : Field A :=
  match over with
  | Absent => base
  | Present v => Present v
  end.

Section Manager.
Variable host : Host.

(** [constructor(config: NodeManagerConfig = {})]: the value of
    [this.config].  The argument is [None] when it is omitted or
    [undefined]. *)
Definition constructor (arg : option NodeManagerConfig) : NodeManagerConfig :=
  let config := nullish arg empty_config in
  {| installDir :=
       spread (Present (Some (string_or (get (installDir config))
                                (path_join host [os_homedir host; ".ldesign"; "node"]))))
              (installDir config);
     mirror :=
       spread (Present (Some (string_or (get (mirror config)) "https://nodejs.org/dist")))
              (mirror config);
     verbose :=
       spread (Present (Some (nullish (get (verbose config)) false))) (verbose config);
     proxy := spread Absent (proxy config) |}.

(** [createNodeManager(config?)] *)
Definition createNodeManager (arg : option NodeManagerConfig) : NodeManagerConfig :=
  constructor arg.

(** [s.split('\n')[0]] *)
Definition first_line (s : string) : string :=
  match Str.split "010" s with
  | l :: _ => l
  | [] => EmptyString
  end.

Definition getCurrentEnvironment : Completion NodeEnvironment :=
  try_catch
    (nodeVersion <- execa host "node" ["--version"] false ;;
     npmVersion <- execa host "npm" ["--version"] false ;;
     nodePath <- try_catch (execa host "which" ["node"] true)
                   (fun _ => execa host "where" ["node"] true) ;;
     npmPath <- try_catch (execa host "which" ["npm"] true)
                  (fun _ => execa host "where" ["npm"] true) ;;
     Normal {| nodeVersion := Str.trim nodeVersion;
               npmVersion := Str.trim npmVersion;
               nodePath := Str.trim (first_line nodePath);
               npmPath := Str.trim (first_line npmPath);
               arch := process_arch host;
               platform := process_platform host |})
    (fun error =>
       Throw (Error ("Failed to get Node environment: " ++ Error_toString error))).

Definition parseVersion (versionStr : string) : Completion (option NodeVersion) :=
  let cleanVersion := Str.replace_leading_v versionStr in
  parsed <- Semver.parse cleanVersion ;;
  match parsed with
  | None => Normal None
  | Some parsed =>
      Normal (Some {| version := "v" ++ Semver.version parsed;
                      major := Semver.major parsed;
                      minor := Semver.minor parsed;
                      patch := Semver.patch parsed;
                      lts := None;
                      date := None |})
  end.

Definition compareVersions (v1 v2 : string) : Completion Z :=
  let clean1 := Str.replace_leading_v v1 in
  let clean2 := Str.replace_leading_v v2 in
  Semver.compare clean1 clean2.

(** The truthiness of [this.config.verbose]. *)
Definition truthy (b : option bool) : bool := nullish b false.

(** The [for ... of] loop of [getInstalledVersions], [versions] being the
    array pushed to so far. *)
Fixpoint scan (installDir : option string) (currentEnv : option NodeEnvironment)
         (entries : list Dirent) (versions : list InstalledNodeVersion)
  : Completion (list InstalledNodeVersion) :=
  match entries with
  | [] => Normal versions
  | entry :: rest =>
      if isDirectory entry && Str.startsWith "v" (name entry) then
        versionInfo <- parseVersion (name entry) ;;
        match versionInfo with
        | Some versionInfo =>
            versionPath <- path_join_call host [installDir; Some (name entry)] ;;
            let isCurrent :=
              match currentEnv with
              | Some env => (nodeVersion env =? name entry)%string
              | None => false
              end in
            scan installDir currentEnv rest
              (versions ++ [ {| info := versionInfo;
                                path := versionPath;
                                current := isCurrent;
                                default := false |} ])%list
        | None => scan installDir currentEnv rest versions
        end
      else scan installDir currentEnv rest versions
  end.

(** The [try] block of [getInstalledVersions]. *)
Definition getInstalledVersions_try (config : NodeManagerConfig)
  : Completion (list InstalledNodeVersion) :=
  let installDir := get (installDir config) in
  found <- fs_pathExists host installDir ;;
  if negb found then Normal []
  else
    entries <- fs_readdir host installDir ;;
    let currentEnv :=
      match getCurrentEnvironment with
      | Normal env => Some env
      | Throw _ => None
      end in
    versions <- scan installDir currentEnv entries [] ;;
    sort (fun a b => compareVersions (version (info b)) (version (info a))) versions.

(** [getInstalledVersions()]: what is written to the console and the
    outcome of the call. *)
Definition getInstalledVersions (config : NodeManagerConfig)
  : list ConsoleEvent * Completion (list InstalledNodeVersion) :=
  match getInstalledVersions_try config with
  | Normal versions => ([], Normal versions)
  | Throw error =>
      (if truthy (get (verbose config))
       then [console_error "Failed to get installed versions:" error]
       else [],
       Normal [])
  end.

Definition isVersionInstalled (config : NodeManagerConfig) (version_ : string)
  : list ConsoleEvent * Completion bool :=
  let '(out, r) := getInstalledVersions config in
  (out, installedVersions <- r ;;
        Normal (List.existsb (fun v => (version (info v) =? version_)%string)
                  installedVersions)).

Definition getVersionPath (config : NodeManagerConfig) (version_ : string)
  : Completion string :=
  path_join_call host [get (installDir config); Some version_].

Definition validateInstallation (versionPath : string) : Completion bool :=
  try_catch
    (let binPath :=
       if (process_platform host =? "win32")%string
       then path_join host [versionPath; "node.exe"]
       else path_join host [versionPath; "bin"; "node"] in
     found <- fs_pathExists host (Some binPath) ;;
     if negb found then Normal false
     else
       stdout <- execa host binPath ["--version"] false ;;
       Normal (Str.startsWith "v" (Str.trim stdout)))
    (fun _ => Normal false).

Definition getCurrentNodeVersion : Completion string :=
  try_catch
    (stdout <- execa host "node" ["--version"] false ;;
     Normal (Str.trim stdout))
    (fun error =>
       Throw (Error ("Failed to get Node version: " ++ Error_toString error))).

Definition isNodeInstalled : Completion bool :=
  try_catch (_ <- execa host "node" ["--version"] false ;; Normal true)
    (fun _ => Normal false).

End Manager.

Definition satisfiesVersion (E : SemverRange.Engine) (version_ range : string)
  : Completion bool :=
  let cleanVersion := Str.replace_leading_v version_ in
  SemverRange.satisfies E cleanVersion range.

Definition getRecommendedNodeVersion : string := "20".

End NodeManager.

(* ================================================================== *)
(** * Vocabulary of the statements *)

Module Spec.
Import Str Semver Grammar NodeManager.

(** ["v" + major + "." + minor + "." + patch] *)
Definition canonical (d : NodeVersion) : string :=
  "v" ++ Number_toString (NodeManager.major d) ++ "." ++
  Number_toString (NodeManager.minor d) ++ "." ++
  Number_toString (NodeManager.patch d).

(** The descriptor [parseVersion] builds from a parsed version. *)
Definition describe (p : SemVer) : NodeVersion :=
  {| NodeManager.version := "v" ++ Semver.version p;
     NodeManager.major := Semver.major p;
     NodeManager.minor := Semver.minor p;
     NodeManager.patch := Semver.patch p;
     lts := None;
     date := None |}.

(** A valid semantic version, as the package reads one: at most 256
    characters; between optional white space, an optional "v" and
    well-formed groups; the three numbers at most [MAX_SAFE_INTEGER]. *)
Definition valid_semver (s : string) : Prop :=
  (js_length s <= MAX_LENGTH)%nat /\
  exists m, well_formed m = true /\
            (trim s = render m \/ trim s = "v" ++ render m) /\
            (digits_value (m1 m) <= MAX_SAFE_INTEGER)%N /\
            (digits_value (m2 m) <= MAX_SAFE_INTEGER)%N /\
            (digits_value (m3 m) <= MAX_SAFE_INTEGER)%N.

(** [currentEnv] of [getInstalledVersions]. *)
Definition currentEnv (h : Host) : option NodeEnvironment :=
  match getCurrentEnvironment h with
  | Normal env => Some env
  | Throw _ => None
  end.

Definition isCurrent (env : option NodeEnvironment) (entry : Dirent) : bool :=
  match env with
  | Some e => (nodeVersion e =? name entry)%string
  | None => false
  end.

(** The child is a directory whose name starts with "v". *)
Definition candidate (entry : Dirent) : bool :=
  isDirectory entry && startsWith "v" (name entry).

(** The entries one child of the install directory [d] contributes: one
    when it is a candidate whose name parses, none otherwise. *)
Definition discovered (h : Host) (d : string) (env : option NodeEnvironment)
           (entry : Dirent) : list InstalledNodeVersion :=
  if candidate entry then
    match parseVersion (name entry) with
    | Normal (Some i) =>
        [ {| info := i; path := path_join h [d; name entry];
             current := isCurrent env entry; default := false |} ]
    | _ => []
    end
  else [].

(** The same for a configured directory that may be [undefined]. *)
Definition produced (h : Host) (dir : option string) (env : option NodeEnvironment)
           (entry : Dirent) : list InstalledNodeVersion :=
  match dir with
  | Some d => discovered h d env entry
  | None => []
  end.




Definition comparator (a b : InstalledNodeVersion) : Completion Z :=
  compareVersions (NodeManager.version (info b)) (NodeManager.version (info a)).

(** An entry whose descriptor came out of [parseVersion]. *)
Definition parsed (v : InstalledNodeVersion) : Prop :=
  exists s p, SemVer_new s = Normal p /\ info v = describe p.

(** A tame prerelease identifier is a number, or a string that is not made
    of digits only.  The constructor keeps a string of digits as a string
    only when its value is [MAX_SAFE_INTEGER] or more; [compareIdentifiers]
    then compares the rounded doubles, and [comparePre] stops at two
    different strings with the same double. *)
Definition tame_id (i : Identifier) : Prop :=
  match i with
  | IdNum _ => True
  | IdStr s => numeric_test s = false
  end.

Definition tame (p : SemVer) : Prop := Forall tame_id (prerelease p).

(** A directory name whose version, if it is one, has tame identifiers. *)
Definition tame_name (s : string) : Prop :=
  forall p, SemVer_new (replace_leading_v s) = Normal p -> tame p.

(** [compareMain || comparePre] *)
Definition compare_fields (p q : SemVer) : Z :=
  or_else (compareMain p q) (comparePre p q).

(** A comparator that, on the domain [D], changes sign when its arguments
    are exchanged and is transitive: a consistent comparator of
    [Array.prototype.sort]. *)
Definition consistent {A : Type} (D : A -> Prop) (c : A -> A -> Z) : Prop :=
  (forall a b, D a -> D b -> c b a = (- c a b)%Z) /\
  (forall a b x, D a -> D b -> D x ->
                 (c a b <= 0)%Z -> (c b x <= 0)%Z -> (c a x <= 0)%Z).


End Spec.

(* ================================================================== *)
(** * A sample host *)

Module Sample.
Import NodeManager.

Definition LF : string := String "010" EmptyString.

(** A POSIX machine whose install directory holds [v18.0.0], [v20.0.0] and
    [not-a-version], with Node 20.0.0 active. *)
Definition posix : Host :=
  {| os_homedir := "/home/user";
     path_join := fun parts => Str.join "/" parts;
     process_arch := "x64";
     process_platform := "linux";
     execa := fun file args shell =>
       if (file =? "node")%string then Normal ("v20.0.0" ++ LF)
       else if (file =? "npm")%string then Normal ("10.1.0" ++ LF)
       else if (file =? "which")%string then
         match args with
         | [x] => Normal ("/usr/bin/" ++ x ++ LF ++ "/usr/local/bin/" ++ x)
         | _ => Throw (Error "which: bad usage")
         end
       else Throw (Error ("spawn " ++ file ++ " ENOENT"));
     fs_pathExists := fun p =>
       match p with
       | Some "/home/user/.ldesign/node" => Normal true
       | _ => Normal false
       end;
     fs_readdir := fun p =>
       match p with
       | Some "/home/user/.ldesign/node" =>
           Normal [mkDirent "v18.0.0" true; mkDirent "v20.0.0" true;
                   mkDirent "not-a-version" true]
       | _ => Throw (Error "ENOENT: no such file or directory, scandir")
       end |}.

(** The same machine without [node] on the [PATH]. *)
Definition no_node : Host :=
  {| os_homedir := os_homedir posix;
     path_join := path_join posix;
     process_arch := process_arch posix;
     process_platform := process_platform posix;
     execa := fun file args shell =>
       if (file =? "node")%string then Throw (Error "spawn node ENOENT")
       else execa posix file args shell;
     fs_pathExists := fs_pathExists posix;
     fs_readdir := fs_readdir posix |}.


(** The machine of [posix] with an install directory that cannot be read. *)
Definition unreadable : Host :=
  {| os_homedir := os_homedir posix;
     path_join := path_join posix;
     process_arch := process_arch posix;
     process_platform := process_platform posix;
     execa := execa posix;
     fs_pathExists := fs_pathExists posix;
     fs_readdir := fun _ => Throw (Error "EACCES: permission denied, scandir") |}.

(** The children of the install directory of [posix]. *)
Definition children : list Dirent :=
  [mkDirent "v18.0.0" true; mkDirent "v20.0.0" true; mkDirent "not-a-version" true].

Definition v18 : InstalledNodeVersion :=
  {| info := mkNodeVersion "v18.0.0" 18 0 0 None None;
     path := "/home/user/.ldesign/node/v18.0.0"; current := false; default := false |}.

Definition v20 : InstalledNodeVersion :=
  {| info := mkNodeVersion "v20.0.0" 20 0 0 None None;
     path := "/home/user/.ldesign/node/v20.0.0"; current := true; default := false |}.

(** [new NodeManager({ installDir: undefined })] *)
Definition undefined_installDir : NodeManagerConfig :=
  {| installDir := Present None; mirror := Absent; proxy := Absent; verbose := Absent |}.

End Sample.

(* ================================================================== *)
(** * Further vocabulary *)

Module Terms.
Import Str Semver Grammar NodeManager Spec.

(** [parseVersion] returns a descriptor for [s]. *)
Definition accepted (s : string) : Prop :=
  exists d, parseVersion s = Normal (Some d).

(** The three numbers of [a] come before those of [b]. *)
Definition lower_numbers (a b : NodeVersion) : Prop :=
  (NodeManager.major a < NodeManager.major b)%N \/
  (NodeManager.major a = NodeManager.major b /\
   (NodeManager.minor a < NodeManager.minor b)%N) \/
  (NodeManager.major a = NodeManager.major b /\
   NodeManager.minor a = NodeManager.minor b /\
   (NodeManager.patch a < NodeManager.patch b)%N).

Definition same_numbers (a b : NodeVersion) : Prop :=
  NodeManager.major a = NodeManager.major b /\
  NodeManager.minor a = NodeManager.minor b /\
  NodeManager.patch a = NodeManager.patch b.

(** The line feed. *)
Definition line_feed : ascii := "010"%char.

(** Where [validateInstallation] looks for the executable. *)
Definition node_binary (h : Host) (versionPath : string) : string :=
  if (process_platform h =? "win32")%string
  then path_join h [versionPath; "node.exe"]
  else path_join h [versionPath; "bin"; "node"].

(** The constructor was given an [installDir] property without a value. *)
Definition valueless_installDir (arg : option NodeManagerConfig) : Prop :=
  exists c, arg = Some c /\ installDir c = Present None.

(** No white space at either end: [trim] has nothing to remove. *)
Definition trimmed (s : string) : Prop := trim s = s.

(** A string with at least one character. *)
Definition nonempty (p : string) : bool :=
  match p with
  | EmptyString => false
  | String _ _ => true
  end.

(** An entry without its [current] flag. *)
Definition unflagged (v : InstalledNodeVersion) : InstalledNodeVersion :=
  {| info := info v; path := path v; current := false; default := default v |}.

(** The entries of an outcome, each without its [current] flag. *)
Definition unflagged_all (r : Completion (list InstalledNodeVersion))
  : Completion (list InstalledNodeVersion) :=
  l <- r ;; Normal (map unflagged l).

(** Two hosts with the same file system and the same [path] module. *)
Definition same_files (h1 h2 : Host) : Prop :=
  (forall parts, path_join h1 parts = path_join h2 parts) /\
  (forall p, fs_pathExists h1 p = fs_pathExists h2 p) /\
  (forall p, fs_readdir h1 p = fs_readdir h2 p).

End Terms.

(* ================================================================== *)
(** * Further sample hosts *)

Module Fixtures.
Import NodeManager SemverRange Semver.

(** An engine that knows the range "*" only: every version without a
    prerelease. *)
Definition star_only : Engine :=
  {| Range := unit;
     Range_new := fun range =>
       if (range =? "*")%string then Normal tt
       else Throw (TypeError ("Invalid comparator: " ++ range));
     Range_matches := fun _ v =>
       match prerelease v with [] => true | _ :: _ => false end |}.

Definition backslash : string := String "092" EmptyString.
Definition CRLF : string := String "013" (String "010" EmptyString).

Definition windows_join (parts : list string) : string := Str.join backslash parts.

Definition windows_exe : string := windows_join ["C:"; "node"; "v20.0.0"; "node.exe"].

(** A Windows machine with one installation, outside the default
    directory. *)
Definition windows : Host :=
  {| os_homedir := windows_join ["C:"; "Users"; "user"];
     path_join := windows_join;
     process_arch := "x64";
     process_platform := "win32";
     execa := fun file args shell =>
       if (file =? windows_exe)%string then Normal ("v20.0.0" ++ CRLF)
       else Throw (Error ("spawn " ++ file ++ " ENOENT"));
     fs_pathExists := fun p =>
       match p with
       | Some x => Normal (x =? windows_exe)%string
       | None => Normal false
       end;
     fs_readdir := fun _ => Throw (Error "ENOENT: no such file or directory, scandir") |}.

(** The snapshot [getCurrentEnvironment] returns on [Sample.posix]. *)
Definition posix_env : NodeEnvironment :=
  {| nodeVersion := "v20.0.0"; npmVersion := "10.1.0";
     nodePath := "/usr/bin/node"; npmPath := "/usr/bin/npm";
     arch := "x64"; platform := "linux" |}.

(** [new NodeManager()] and [new NodeManager({ verbose: true })] on
    [Sample.posix]. *)
Definition quiet : NodeManagerConfig := constructor Sample.posix None.
Definition loud : NodeManagerConfig :=
  constructor Sample.posix (Some (mkConfig Absent Absent Absent (Present (Some true)))).

End Fixtures.

(* ================================================================== *)
(** * Proofs *)

Ltac ascii_cases c :=
  destruct c as [[] [] [] [] [] [] [] []]; vm_compute; intros;
  try discriminate; try reflexivity; auto.

Module StrFacts.
Import Str.

Lemma forallb_app f a b : forallb f (a ++ b) = forallb f a && forallb f b.
Proof.
  induction a as [|c a IH]; simpl; [reflexivity|].
  rewrite IH. now rewrite andb_assoc.
Qed.

Lemma forallb_impl (f g : ascii -> bool) s :
  (forall c, f c = true -> g c = true) -> forallb f s = true -> forallb g s = true.
Proof.
  intros H. induction s as [|c s IH]; simpl; [reflexivity|].
  rewrite !andb_true_iff. intros [H1 H2]. split; auto.
Qed.

Lemma js_length_app a b : js_length (a ++ b) = js_length a + js_length b.
Proof.
  induction a as [|c a IH]; simpl; [reflexivity|]. rewrite IH. lia.
Qed.

Lemma cut_some sep s a b :
  cut sep s = (a, Some b) -> s = a ++ String sep b /\ forallb (differs sep) a = true.
Proof.
  revert a b. induction s as [|c s IH]; simpl; intros a b H; [discriminate|].
  destruct (Ascii.eqb c sep) eqn:E.
  - inversion H; subst. apply Ascii.eqb_eq in E. subst. split; reflexivity.
  - destruct (cut sep s) as [a' b'] eqn:C. inversion H; subst.
    destruct (IH a' b eq_refl) as [-> Hf]. split; [reflexivity|].
    simpl. unfold differs at 1. now rewrite E.
Qed.

Lemma cut_none sep s a :
  cut sep s = (a, None) -> a = s /\ forallb (differs sep) s = true.
Proof.
  revert a. induction s as [|c s IH]; simpl; intros a H.
  - inversion H. split; reflexivity.
  - destruct (Ascii.eqb c sep) eqn:E; [discriminate|].
    destruct (cut sep s) as [a' b'] eqn:C. inversion H; subst.
    destruct (IH a' eq_refl) as [-> Hf]. split; [reflexivity|].
    unfold differs at 1. now rewrite E.
Qed.

Lemma cut_app sep a b :
  forallb (differs sep) a = true -> cut sep (a ++ String sep b) = (a, Some b).
Proof.
  induction a as [|c a IH]; simpl.
  - intros _. now rewrite Ascii.eqb_refl.
  - rewrite andb_true_iff. intros [H1 H2]. unfold differs in H1.
    apply negb_true_iff in H1. rewrite H1, (IH H2). reflexivity.
Qed.

Lemma cut_absent sep s :
  forallb (differs sep) s = true -> cut sep s = (s, None).
Proof.
  induction s as [|c s IH]; simpl; [reflexivity|].
  rewrite andb_true_iff. intros [H1 H2]. unfold differs in H1.
  apply negb_true_iff in H1. rewrite H1, (IH H2). reflexivity.
Qed.

Lemma split_nonempty sep s : split sep s <> [].
Proof.
  destruct s as [|c s]; simpl; [discriminate|].
  destruct (Ascii.eqb c sep); [discriminate|].
  destruct (split sep s); discriminate.
Qed.

Lemma join_cons sep x l :
  l <> [] -> join sep (x :: l) = x ++ sep ++ join sep l.
Proof. destruct l; [congruence|reflexivity]. Qed.

Lemma join_split sep s : join (String sep "") (split sep s) = s.
Proof.
  induction s as [|c s IH]; simpl; [reflexivity|].
  destruct (Ascii.eqb c sep) eqn:E.
  - apply Ascii.eqb_eq in E. subst c.
    rewrite join_cons by apply split_nonempty. simpl. now rewrite IH.
  - destruct (split sep s) as [|w ws] eqn:S;
      [now destruct (split_nonempty sep s)|].
    destruct ws as [|w' ws].
    + unfold join in *. simpl in *. now rewrite IH.
    + rewrite join_cons by discriminate. rewrite join_cons in IH by discriminate.
      subst s. reflexivity.
Qed.

Lemma split_absent sep s :
  forallb (differs sep) s = true -> split sep s = [s].
Proof.
  induction s as [|c s IH]; simpl; [reflexivity|].
  rewrite andb_true_iff. intros [H1 H2]. unfold differs in H1.
  apply negb_true_iff in H1. rewrite H1, (IH H2). reflexivity.
Qed.

Lemma split_app sep a b :
  forallb (differs sep) a = true ->
  split sep (a ++ String sep b) = a :: split sep b.
Proof.
  induction a as [|c a IH]; simpl.
  - intros _. now rewrite Ascii.eqb_refl.
  - rewrite andb_true_iff. intros [H1 H2]. unfold differs in H1.
    apply negb_true_iff in H1. rewrite H1, (IH H2). reflexivity.
Qed.

(** The characters of a string are those of its parts and the separator. *)
Lemma forallb_split (f : ascii -> bool) sep s :
  List.forallb (forallb f) (split sep s) = true ->
  forallb (fun c => f c || Ascii.eqb c sep) s = true.
Proof.
  induction s as [|c s IH]; simpl; [reflexivity|].
  destruct (Ascii.eqb c sep) eqn:E.
  - simpl. intros H. rewrite orb_true_r. simpl. auto.
  - destruct (split sep s) as [|w ws] eqn:S; [now destruct (split_nonempty sep s)|].
    simpl in *. rewrite !andb_true_iff. intros [[H1 H2] H3].
    rewrite H1. simpl. split; [reflexivity|]. apply IH. now rewrite H2, H3.
Qed.

Lemma append_nil_r s : s ++ "" = s.
Proof. induction s as [|c s IH]; simpl; [reflexivity|now rewrite IH]. Qed.

Lemma append_assoc a b c : (a ++ b) ++ c = a ++ (b ++ c).
Proof. induction a as [|x a IH]; simpl; [reflexivity|now rewrite IH]. Qed.

Lemma rev_append_spec s acc : rev_append s acc = rev s ++ acc.
Proof.
  unfold rev. revert acc. induction s as [|c s IH]; intros acc; simpl; [reflexivity|].
  rewrite IH, (IH (String c "")), append_assoc. reflexivity.
Qed.

Lemma rev_cons c s : rev (String c s) = rev s ++ String c "".
Proof. unfold rev at 1. simpl. apply rev_append_spec. Qed.

Lemma rev_app a b : rev (a ++ b) = rev b ++ rev a.
Proof.
  induction a as [|c a IH]; simpl.
  - now rewrite append_nil_r.
  - rewrite !rev_cons, IH, append_assoc. reflexivity.
Qed.

Lemma rev_involutive s : rev (rev s) = s.
Proof.
  induction s as [|c s IH]; [reflexivity|].
  rewrite rev_cons, rev_app, IH. reflexivity.
Qed.

Lemma forallb_rev f s : forallb f (rev s) = forallb f s.
Proof.
  induction s as [|c s IH]; [reflexivity|].
  rewrite rev_cons, forallb_app, IH. simpl. rewrite andb_true_r. apply andb_comm.
Qed.

Lemma drop_prefix_some p s r : drop_prefix p s = Some r -> s = p ++ r.
Proof.
  revert s. induction p as [|a p IH]; intros s; simpl.
  - now intros [= ->].
  - destruct s as [|b s]; [discriminate|].
    destruct (Ascii.eqb a b) eqn:E; [|discriminate].
    apply Ascii.eqb_eq in E. subst b. intros H. now rewrite (IH _ H).
Qed.

Lemma drop_any_some ps s r : drop_any ps s = Some r -> exists p, s = p ++ r.
Proof.
  induction ps as [|p ps IH]; simpl; [discriminate|].
  destruct (drop_prefix p s) eqn:E.
  - intros [= ->]. exists p. now apply drop_prefix_some.
  - exact IH.
Qed.

(** What [strip] returns is the end of its argument. *)
Lemma strip_suffix ps fuel s : exists a, s = a ++ strip ps fuel s.
Proof.
  revert s. induction fuel as [|fuel IH]; intros s; simpl.
  - now exists "".
  - destruct (drop_any ps s) as [r|] eqn:E; [|now exists ""].
    destruct (drop_any_some _ _ _ E) as [p ->].
    destruct (IH r) as [a Ha]. exists (p ++ a).
    rewrite append_assoc. now rewrite <- Ha.
Qed.

Lemma trimStart_suffix s : exists a, s = a ++ trimStart s.
Proof. apply strip_suffix. Qed.

Lemma trimEnd_prefix s : exists b, s = trimEnd s ++ b.
Proof.
  unfold trimEnd.
  destruct (strip_suffix (map rev whitespace) (String.length s) (rev s)) as [a Ha].
  exists (rev a). rewrite <- rev_app, <- Ha. symmetry. apply rev_involutive.
Qed.

(** [trim] keeps a part of its argument. *)
Lemma trim_infix s : exists a b, s = a ++ trim s ++ b.
Proof.
  unfold trim. destruct (trimStart_suffix s) as [a Ha].
  destruct (trimEnd_prefix (trimStart s)) as [b Hb].
  exists a, b. now rewrite <- Hb.
Qed.

Lemma js_length_trim s : js_length (trim s) <= js_length s.
Proof.
  destruct (trim_infix s) as (a & b & H). rewrite H at 2.
  rewrite !js_length_app. lia.
Qed.

Lemma drop_any_none ps c r : starts_none ps c = true -> drop_any ps (String c r) = None.
Proof.
  induction ps as [|p ps IH]; simpl; [reflexivity|].
  rewrite andb_true_iff. intros [H1 H2].
  destruct p as [|a p]; [discriminate|]. simpl.
  apply negb_true_iff in H1. rewrite H1. auto.
Qed.

Lemma graphic_starts_none c :
  is_graphic c = true ->
  starts_none whitespace c = true /\ starts_none (map rev whitespace) c = true.
Proof.
  destruct c as [[] [] [] [] [] [] [] []]; vm_compute; intros H;
    solve [discriminate H | split; reflexivity].
Qed.

Lemma drop_any_empty ps c : starts_none ps c = true -> drop_any ps "" = None.
Proof.
  induction ps as [|p ps IH]; simpl; [reflexivity|].
  rewrite andb_true_iff. intros [H1 H2].
  destruct p as [|a p]; [discriminate|]. simpl. auto.
Qed.

Lemma strip_graphic ps fuel s :
  (forall c, is_graphic c = true -> starts_none ps c = true) ->
  forallb is_graphic s = true -> strip ps fuel s = s.
Proof.
  intros Hps. destruct fuel as [|fuel]; [reflexivity|]. simpl.
  destruct s as [|c s]; simpl.
  - intros _. now rewrite (drop_any_empty ps "a"%char (Hps "a"%char eq_refl)).
  - rewrite andb_true_iff. intros [H1 _].
    now rewrite (drop_any_none ps c s (Hps c H1)).
Qed.

(** [trim] leaves a string of graphic characters as it is. *)
Lemma trim_graphic s : forallb is_graphic s = true -> trim s = s.
Proof.
  intros H. unfold trim, trimStart, trimEnd.
  rewrite (strip_graphic whitespace) by
    (try assumption; intros c Hc; now apply graphic_starts_none).
  rewrite (strip_graphic (map rev whitespace)).
  - apply rev_involutive.
  - intros c Hc; now apply graphic_starts_none.
  - now rewrite forallb_rev.
Qed.

End StrFacts.

Module SemverFacts.
Import Str StrFacts Semver.

(** ** Doubles *)

Lemma round_double_exact n : (n <= 2 ^ 53)%N -> round_double n = n.
Proof.
  intros H. unfold round_double. apply N.leb_le in H. now rewrite H.
Qed.

Lemma round_double_large n : (2 ^ 53 < n)%N -> (2 ^ 53 <= round_double n)%N.
Proof.
  intros H. unfold round_double.
  destruct (n <=? 2 ^ 53)%N eqn:E; [apply N.leb_le in E; lia|].
  assert (Hn : (0 < n)%N) by lia.
  assert (Hl : (53 <= N.log2 n)%N).
  { change 53%N with (N.log2 (2 ^ 53)). apply N.log2_le_mono. lia. }
  destruct (N.log2_spec n Hn) as [Hlo _].
  set (e := (N.log2 n - 52)%N) in *.
  assert (He : N.log2 n = (52 + e)%N) by (unfold e; lia).
  rewrite He, N.pow_add_r in Hlo.
  assert (Hp : (0 < 2 ^ e)%N) by (apply N.neq_0_lt_0, N.pow_nonzero; lia).
  assert (Hq : (2 ^ 52 <= N.shiftr n e)%N).
  { rewrite N.shiftr_div_pow2. apply N.div_le_lower_bound; lia. }
  assert (He1 : (1 <= e)%N) by lia.
  assert (Hpe : (2 ^ 1 <= 2 ^ e)%N) by (apply N.pow_le_mono_r; lia).
  set (q := N.shiftr n e) in *.
  assert (Hx : forall q', (q <= q')%N -> (2 ^ 53 <= q' * 2 ^ e)%N).
  { intros q' Hq'. change (2 ^ 53)%N with (2 ^ 52 * 2 ^ 1)%N.
    apply N.mul_le_mono; lia. }
  repeat match goal with |- context [if ?b then _ else _] => destruct b end;
    apply Hx; lia.
Qed.

Lemma round_double_safe n :
  (round_double n <= MAX_SAFE_INTEGER)%N -> round_double n = n.
Proof.
  intros H. destruct (N.le_gt_cases n (2 ^ 53)) as [L|G].
  - now apply round_double_exact.
  - pose proof (round_double_large n G). unfold MAX_SAFE_INTEGER in H.
    change (2 ^ 53)%N with 9007199254740992%N in *. lia.
Qed.

(** ** Character classes *)

Lemma digit_is_LDN c : is_digit c = true -> is_LETTERDASHNUMBER c = true.
Proof. unfold is_LETTERDASHNUMBER. now intros ->. Qed.

Lemma LDN_graphic c : is_LETTERDASHNUMBER c = true -> is_graphic c = true.
Proof. ascii_cases c. Qed.

Lemma LDN_no_plus c : is_LETTERDASHNUMBER c = true -> differs "+" c = true.
Proof. ascii_cases c. Qed.

Lemma LDN_no_dot c : is_LETTERDASHNUMBER c = true -> differs "." c = true.
Proof. ascii_cases c. Qed.

Lemma digit_no_dash c : is_digit c = true -> differs "-" c = true.
Proof. ascii_cases c. Qed.

Lemma digit_not_v c : is_digit c = true -> c <> "v"%char.
Proof. ascii_cases c. Qed.

Lemma NUMERICIDENTIFIER_digits s :
  is_NUMERICIDENTIFIER s = true -> forallb is_digit s = true.
Proof.
  destruct s as [|c r]; simpl; [discriminate|].
  destruct (Ascii.eqb c "0") eqn:E.
  - apply Ascii.eqb_eq in E. subst c. destruct r; [reflexivity|discriminate].
  - trivial.
Qed.

Lemma NONNUMERICIDENTIFIER_LDN s :
  is_NONNUMERICIDENTIFIER s = true -> forallb is_LETTERDASHNUMBER s = true.
Proof.
  induction s as [|c r IH]; simpl; [discriminate|].
  destruct (is_digit c) eqn:D.
  - intros H. rewrite (digit_is_LDN c D). simpl. auto.
  - rewrite andb_true_iff. intros [H1 H2]. unfold is_LETTERDASHNUMBER at 1.
    rewrite D. simpl. rewrite H1. exact H2.
Qed.

Lemma NONNUMERICIDENTIFIER_not_digits s :
  is_NONNUMERICIDENTIFIER s = true -> forallb is_digit s = false.
Proof.
  induction s as [|c r IH]; simpl; [discriminate|].
  destruct (is_digit c) eqn:D; simpl; auto.
Qed.

Lemma PRERELEASEIDENTIFIER_LDN s :
  is_PRERELEASEIDENTIFIER s = true -> forallb is_LETTERDASHNUMBER s = true.
Proof.
  unfold is_PRERELEASEIDENTIFIER. rewrite orb_true_iff. intros [H|H].
  - apply NUMERICIDENTIFIER_digits in H.
    revert H. apply forallb_impl, digit_is_LDN.
  - now apply NONNUMERICIDENTIFIER_LDN.
Qed.

Lemma BUILDIDENTIFIER_LDN s :
  is_BUILDIDENTIFIER s = true -> forallb is_LETTERDASHNUMBER s = true.
Proof. destruct s; [discriminate|trivial]. Qed.

(** A numeric prerelease identifier is a [NUMERICIDENTIFIER]. *)
Lemma numeric_PRERELEASEIDENTIFIER s :
  is_PRERELEASEIDENTIFIER s = true -> numeric_test s = true ->
  is_NUMERICIDENTIFIER s = true.
Proof.
  unfold is_PRERELEASEIDENTIFIER. rewrite orb_true_iff. intros [H|H]; [trivial|].
  apply NONNUMERICIDENTIFIER_not_digits in H.
  destruct s; [discriminate|]. unfold numeric_test. congruence.
Qed.

(** ** Decimal digits *)

Lemma uint_of_digits s :
  forallb is_digit s = true -> exists d, NilEmpty.uint_of_string s = Some d.
Proof.
  induction s as [|c r IH]; simpl; [now eexists|].
  rewrite andb_true_iff. intros [H1 H2]. destruct (IH H2) as [d ->].
  revert H1. ascii_cases c; eexists; reflexivity.
Qed.

Lemma uint_of_NUMERICIDENTIFIER s :
  is_NUMERICIDENTIFIER s = true ->
  exists d, NilEmpty.uint_of_string s = Some d /\ Decimal.unorm d = d.
Proof.
  intros H. pose proof (NUMERICIDENTIFIER_digits s H) as Hd.
  destruct s as [|c r]; [discriminate|]. simpl in H, Hd |- *.
  apply andb_true_iff in Hd. destruct Hd as [Hc Hr].
  destruct (uint_of_digits r Hr) as [d Hd]. rewrite Hd.
  destruct (Ascii.eqb c "0") eqn:E.
  - apply Ascii.eqb_eq in E. subst c. destruct r; [|discriminate].
    simpl in Hd. injection Hd as <-. eexists. split; reflexivity.
  - revert E Hc. ascii_cases c; eexists; split; reflexivity.
Qed.

(** Printing the value of a [NUMERICIDENTIFIER] gives it back. *)
Lemma Number_toString_digits_value s :
  is_NUMERICIDENTIFIER s = true -> Number_toString (digits_value s) = s.
Proof.
  intros H. destruct (uint_of_NUMERICIDENTIFIER s H) as (d & Hd & Hn).
  unfold Number_toString, digits_value. rewrite Hd.
  rewrite DecimalN.Unsigned.to_of, Hn. now apply NilEmpty.sus.
Qed.

Lemma Number_toString_of_string s :
  is_NUMERICIDENTIFIER s = true ->
  (Number_of_string s <= MAX_SAFE_INTEGER)%N ->
  Number_toString (Number_of_string s) = s.
Proof.
  intros H L. unfold Number_of_string in *.
  rewrite (round_double_safe _ L). now apply Number_toString_digits_value.
Qed.

Lemma numberify_toString id :
  is_PRERELEASEIDENTIFIER id = true -> Identifier_toString (numberify id) = id.
Proof.
  intros H. unfold numberify.
  destruct (numeric_test id) eqn:T; [|reflexivity].
  destruct (Number_of_string id <? MAX_SAFE_INTEGER)%N eqn:L; [|reflexivity].
  simpl. apply N.ltb_lt in L. apply Number_toString_of_string.
  - now apply numeric_PRERELEASEIDENTIFIER.
  - lia.
Qed.

Lemma map_numberify_toString ids :
  List.forallb is_PRERELEASEIDENTIFIER ids = true ->
  map Identifier_toString (map numberify ids) = ids.
Proof.
  induction ids as [|id ids IH]; simpl; [reflexivity|].
  rewrite andb_true_iff. intros [H1 H2].
  now rewrite numberify_toString, IH.
Qed.

End SemverFacts.

Module FullFacts.
Import Str StrFacts Semver Grammar SemverFacts.

Lemma replace_leading_v_cases s :
  s = replace_leading_v s \/ s = "v" ++ replace_leading_v s.
Proof.
  destruct s as [|c r]; [now left|].
  destruct (Ascii.eqb c "v") eqn:E.
  - apply Ascii.eqb_eq in E. subst c. now right.
  - left. simpl. destruct c as [[] [] [] [] [] [] [] []]; try reflexivity.
    discriminate E.
Qed.

Lemma cut_group sign s a g :
  cut sign s = (a, g) ->
  s = a ++ group (String sign "") g /\ forallb (differs sign) a = true.
Proof.
  destruct g as [b|]; intros H.
  - apply cut_some in H. exact H.
  - apply cut_none in H. destruct H as [-> H]. simpl.
    now rewrite append_nil_r.
Qed.

Lemma split3 main a b c :
  split "." main = [a; b; c] -> main = a ++ "." ++ b ++ "." ++ c.
Proof.
  intros H. rewrite <- (join_split "." main), H. reflexivity.
Qed.

(** Whatever [match_FULL] accepts is the rendering of its groups, after an
    optional "v", and the groups are well formed. *)
Lemma match_FULL_sound s m :
  match_FULL s = Some m ->
  well_formed m = true /\ (s = render m \/ s = "v" ++ render m).
Proof.
  unfold match_FULL. intros H.
  destruct (cut "+" (replace_leading_v s)) as [front bld] eqn:C1.
  destruct (cut "-" front) as [main pre] eqn:C2.
  destruct (split "." main) as [|a [|b [|c [|? ?]]]] eqn:S; try discriminate.
  match type of H with (if ?x then _ else _) = _ => destruct x eqn:W end;
    [|discriminate].
  injection H as <-. split; [exact W|].
  apply cut_group in C1. destruct C1 as [C1 _].
  apply cut_group in C2. destruct C2 as [C2 _].
  apply split3 in S. subst main front.
  assert (R : replace_leading_v s = render (mkMatch a b c pre bld)).
  { rewrite C1. unfold render. cbn [m1 m2 m3 m4 m5]. rewrite !append_assoc. reflexivity. }
  destruct (replace_leading_v_cases s) as [E|E]; rewrite E, R; auto.
Qed.

Lemma identifiers_chars ok g :
  (forall id, ok id = true -> forallb is_LETTERDASHNUMBER id = true) ->
  identifiers_ok ok (Some g) = true ->
  forallb (fun c => is_LETTERDASHNUMBER c || Ascii.eqb c ".") g = true.
Proof.
  intros Hok H. simpl in H. apply forallb_split.
  rewrite List.forallb_forall in *. intros id Hin. apply Hok, H, Hin.
Qed.

Lemma LDN_dot_no_plus c :
  is_LETTERDASHNUMBER c || Ascii.eqb c "." = true -> differs "+" c = true.
Proof. destruct c as [[] [] [] [] [] [] [] []]; vm_compute; intros; congruence. Qed.

Lemma digit_no_dot c : is_digit c = true -> differs "." c = true.
Proof. intros H. now apply LDN_no_dot, digit_is_LDN. Qed.

Lemma digit_no_plus c : is_digit c = true -> differs "+" c = true.
Proof. intros H. now apply LDN_no_plus, digit_is_LDN. Qed.

Lemma replace_leading_v_digit x r :
  is_digit x = true -> replace_leading_v (String x r) = String x r.
Proof.
  intros D. pose proof (digit_not_v x D) as V.
  destruct x as [[] [] [] [] [] [] [] []]; try reflexivity. congruence.
Qed.

Section Main.
Variables a b c : string.
Hypothesis Ha : is_NUMERICIDENTIFIER a = true.
Hypothesis Hb : is_NUMERICIDENTIFIER b = true.
Hypothesis Hc : is_NUMERICIDENTIFIER c = true.

Lemma main_split : split "." (a ++ "." ++ b ++ "." ++ c) = [a; b; c].
Proof.
  cbn [append].
  rewrite split_app by
    (eapply forallb_impl; [apply digit_no_dot|now apply NUMERICIDENTIFIER_digits]).
  rewrite split_app by
    (eapply forallb_impl; [apply digit_no_dot|now apply NUMERICIDENTIFIER_digits]).
  rewrite split_absent by
    (eapply forallb_impl; [apply digit_no_dot|now apply NUMERICIDENTIFIER_digits]).
  reflexivity.
Qed.

Lemma main_chars (f : ascii -> bool) :
  (forall x, is_digit x = true -> f x = true) -> f "."%char = true ->
  forallb f (a ++ "." ++ b ++ "." ++ c) = true.
Proof.
  intros Hd Hdot.
  rewrite !forallb_app. simpl. rewrite Hdot. simpl.
  rewrite !(forallb_impl is_digit f _ Hd) by now apply NUMERICIDENTIFIER_digits.
  reflexivity.
Qed.

End Main.

Lemma render_head m :
  well_formed m = true -> replace_leading_v (render m) = render m.
Proof.
  destruct m as [a b c pre bld]. unfold well_formed, render.
  cbn [m1 m2 m3 m4 m5]. rewrite !andb_true_iff. intros [[[[Ha _] _] _] _].
  destruct a as [|x r]; [discriminate Ha|]. cbn [append].
  apply replace_leading_v_digit.
  apply NUMERICIDENTIFIER_digits in Ha. simpl in Ha.
  now apply andb_true_iff in Ha.
Qed.

(** Every well-formed choice of groups is matched, with those groups. *)
Lemma match_FULL_render m :
  well_formed m = true -> match_FULL (render m) = Some m.
Proof.
  intros W. unfold match_FULL. rewrite (render_head m W).
  destruct m as [a b c pre bld]. unfold well_formed, render in *.
  cbn [m1 m2 m3 m4 m5] in *. pose proof W as W'.
  rewrite !andb_true_iff in W'. destruct W' as [[[[Ha Hb] Hc] Hpre] Hbld].
  set (main := a ++ "." ++ b ++ "." ++ c).
  assert (E : a ++ "." ++ b ++ "." ++ c ++ group "-" pre ++ group "+" bld
              = (main ++ group "-" pre) ++ group "+" bld).
  { unfold main. now rewrite !append_assoc. }
  rewrite E.
  assert (Fp : forallb (differs "+") (main ++ group "-" pre) = true).
  { rewrite forallb_app.
    rewrite (main_chars a b c Ha Hb Hc) by (auto using digit_no_plus).
    destruct pre as [g|]; [|reflexivity]. simpl.
    eapply forallb_impl; [apply LDN_dot_no_plus|].
    eapply identifiers_chars; [apply PRERELEASEIDENTIFIER_LDN|exact Hpre]. }
  assert (C1 : cut "+" ((main ++ group "-" pre) ++ group "+" bld)
               = (main ++ group "-" pre, bld)).
  { destruct bld as [g|]; simpl.
    - now apply cut_app.
    - rewrite append_nil_r. now apply cut_absent. }
  rewrite C1.
  assert (Fm : forallb (differs "-") main = true).
  { apply (main_chars a b c Ha Hb Hc); auto using digit_no_dash. }
  assert (C2 : cut "-" (main ++ group "-" pre) = (main, pre)).
  { destruct pre as [g|]; simpl.
    - now apply cut_app.
    - rewrite append_nil_r. now apply cut_absent. }
  rewrite C2. unfold main. rewrite (main_split a b c Ha Hb Hc).
  now rewrite W.
Qed.

Lemma match_FULL_v_render m :
  well_formed m = true -> match_FULL ("v" ++ render m) = Some m.
Proof.
  intros W. unfold match_FULL.
  change (replace_leading_v ("v" ++ render m)) with (render m).
  rewrite <- (render_head m W) at 1. exact (match_FULL_render m W).
Qed.

End FullFacts.

Module SemVerFacts.
Import Str StrFacts Semver Grammar SemverFacts FullFacts.

Lemma SemVer_new_inv s p :
  SemVer_new s = Normal p ->
  exists m, (js_length s <= MAX_LENGTH)%nat /\ match_FULL (trim s) = Some m /\
            safe m /\ p = of_match s m.
Proof.
  unfold SemVer_new.
  destruct (MAX_LENGTH <? js_length s)%nat eqn:L; [discriminate|].
  destruct (match_FULL (trim s)) as [m|] eqn:M; [|discriminate].
  destruct (MAX_SAFE_INTEGER <? Number_of_string (m1 m))%N eqn:S1; [discriminate|].
  destruct (MAX_SAFE_INTEGER <? Number_of_string (m2 m))%N eqn:S2; [discriminate|].
  destruct (MAX_SAFE_INTEGER <? Number_of_string (m3 m))%N eqn:S3; [discriminate|].
  intros [= <-]. exists m.
  apply Nat.ltb_ge in L. apply N.ltb_ge in S1, S2, S3.
  repeat split; auto.
Qed.

Lemma SemVer_new_intro s m :
  (js_length s <= MAX_LENGTH)%nat -> match_FULL (trim s) = Some m -> safe m ->
  SemVer_new s = Normal (of_match s m).
Proof.
  intros L M (S1 & S2 & S3). unfold SemVer_new.
  apply Nat.ltb_ge in L. apply N.ltb_ge in S1, S2, S3.
  rewrite L, M, S1, S2, S3. reflexivity.
Qed.

Lemma well_formed_without_build m :
  well_formed m = true -> well_formed (without_build m) = true.
Proof.
  unfold well_formed. simpl. rewrite !andb_true_iff.
  intros [[[[Ha Hb] Hc] Hpre] _]. auto.
Qed.

Lemma render_without_build m :
  render m = render (without_build m) ++ group "+" (m5 m).
Proof.
  unfold render, without_build. cbn [m1 m2 m3 m4 m5 group].
  repeat (rewrite ?append_assoc; cbn [append]). reflexivity.
Qed.

(** [format] prints the match again, without its build part. *)
Lemma format_render m :
  well_formed m = true -> safe m ->
  version (of_match (render m) m) = render (without_build m).
Proof.
  intros W (S1 & S2 & S3). unfold of_match, format, render. cbn [version].
  destruct m as [a b c pre bld]. unfold well_formed in W. cbn [m1 m2 m3 m4 m5] in *.
  rewrite !andb_true_iff in W. destruct W as [[[[Ha Hb] Hc] Hpre] _].
  rewrite !Number_toString_of_string by assumption.
  unfold prerelease_of. cbn [m4].
  destruct pre as [g|]; cbn [group].
  - destruct (map numberify (split "." g)) as [|i l] eqn:E.
    + apply map_eq_nil in E. now destruct (split_nonempty "." g).
    + rewrite <- E, map_numberify_toString by exact Hpre.
      rewrite join_split. rewrite !append_assoc. now rewrite append_nil_r.
  - now rewrite !append_nil_r.
Qed.

Lemma render_graphic m : well_formed m = true -> forallb is_graphic (render m) = true.
Proof.
  destruct m as [a b c pre bld]. unfold well_formed, render.
  cbn [m1 m2 m3 m4 m5]. rewrite !andb_true_iff.
  intros [[[[Ha Hb] Hc] Hpre] Hbld].
  assert (G : forall s, forallb (fun c => is_LETTERDASHNUMBER c || Ascii.eqb c ".") s = true ->
                        forallb is_graphic s = true).
  { intros s. apply forallb_impl. intros x.
    destruct x as [[] [] [] [] [] [] [] []]; vm_compute; congruence. }
  assert (N : forall s, is_NUMERICIDENTIFIER s = true -> forallb is_graphic s = true).
  { intros s H. apply NUMERICIDENTIFIER_digits in H. revert H.
    apply forallb_impl. intros x Hx. now apply LDN_graphic, digit_is_LDN. }
  assert (Gp : forall g, identifiers_ok is_PRERELEASEIDENTIFIER (Some g) = true ->
                         forallb is_graphic g = true).
  { intros g Hg. apply G.
    eapply identifiers_chars; [apply PRERELEASEIDENTIFIER_LDN|exact Hg]. }
  assert (Gb : forall g, identifiers_ok is_BUILDIDENTIFIER (Some g) = true ->
                         forallb is_graphic g = true).
  { intros g Hg. apply G.
    eapply identifiers_chars; [apply BUILDIDENTIFIER_LDN|exact Hg]. }
  destruct pre as [g|], bld as [h|]; cbn [group];
    rewrite !forallb_app, (N a Ha), (N b Hb), (N c Hc),
      ?(Gp _ Hpre), ?(Gb _ Hbld); reflexivity.
Qed.

Lemma js_length_sound s m :
  s = render m \/ s = "v" ++ render m ->
  (js_length (render (without_build m)) <= js_length s)%nat.
Proof.
  intros [->| ->]; rewrite (render_without_build m), !js_length_app; lia.
Qed.

(** Constructing a version from the [version] field of a constructed one
    gives the same numbers and prerelease identifiers, and no build. *)
Theorem SemVer_new_version s p :
  SemVer_new s = Normal p ->
  SemVer_new (version p) =
  Normal (mkSemVer (version p) (major p) (minor p) (patch p) (prerelease p) []
            (version p)).
Proof.
  intros H. destruct (SemVer_new_inv s p H) as (m & L & M & S & ->).
  destruct (match_FULL_sound _ _ M) as [W R].
  pose proof (well_formed_without_build m W) as W'.
  assert (V : version (of_match s m) = render (without_build m)).
  { rewrite <- (format_render m W S). reflexivity. }
  rewrite V.
  rewrite (SemVer_new_intro (render (without_build m)) (without_build m)).
  - rewrite <- V. reflexivity.
  - pose proof (js_length_sound _ m R). pose proof (js_length_trim s). lia.
  - rewrite trim_graphic by now apply render_graphic.
    now apply match_FULL_render.
  - exact S.
Qed.

End SemVerFacts.

Module CompareFacts.
Import Str StrFacts Semver Grammar SemverFacts FullFacts SemVerFacts.

Lemma Identifier_eqb_sym a b : Identifier_eqb a b = Identifier_eqb b a.
Proof.
  destruct a, b; simpl; auto using N.eqb_sym, String.eqb_sym.
Qed.

Lemma ltb_antisym a b : a <> b -> Str.ltb b a = negb (Str.ltb a b).
Proof.
  intros H. unfold Str.ltb. rewrite (String.compare_antisym b a).
  destruct (String.compare a b) eqn:E; simpl; try reflexivity.
  apply String.compare_eq_iff in E. contradiction.
Qed.

Lemma compareIdentifiers_antisym a b :
  compareIdentifiers b a = (- compareIdentifiers a b)%Z.
Proof.
  unfold compareIdentifiers.
  rewrite (Identifier_eqb_sym b a).
  destruct (Identifier_numeric a) eqn:Na, (Identifier_numeric b) eqn:Nb; simpl.
  - rewrite (N.eqb_sym (Identifier_number b)).
    destruct (Identifier_number a =? Identifier_number b)%N eqn:E; [reflexivity|].
    apply N.eqb_neq in E.
    destruct (Identifier_number a <? Identifier_number b)%N eqn:L1,
             (Identifier_number b <? Identifier_number a)%N eqn:L2;
      try reflexivity;
      rewrite ?N.ltb_lt, ?N.ltb_ge in *; lia.
  - destruct (Identifier_eqb a b); reflexivity.
  - destruct (Identifier_eqb a b); reflexivity.
  - destruct (Identifier_eqb a b) eqn:E; [reflexivity|].
    assert (D : Identifier_toString a <> Identifier_toString b).
    { destruct a, b; simpl in *; try discriminate.
      now apply String.eqb_neq. }
    rewrite (ltb_antisym _ _ D).
    destruct (Str.ltb (Identifier_toString a) (Identifier_toString b)); reflexivity.
Qed.

Lemma or_else_opp a b : or_else (- a) (- b) = (- or_else a b)%Z.
Proof.
  unfold or_else. destruct (a =? 0)%Z eqn:E.
  - apply Z.eqb_eq in E. subst. reflexivity.
  - apply Z.eqb_neq in E. destruct (- a =? 0)%Z eqn:E'; [|reflexivity].
    apply Z.eqb_eq in E'. lia.
Qed.

Lemma compareMain_antisym p q : compareMain q p = (- compareMain p q)%Z.
Proof.
  unfold compareMain.
  rewrite (compareIdentifiers_antisym (IdNum (major p))),
          (compareIdentifiers_antisym (IdNum (minor p))),
          (compareIdentifiers_antisym (IdNum (patch p))).
  now rewrite !or_else_opp.
Qed.

Lemma comparePre_loop_antisym a b :
  comparePre_loop b a = (- comparePre_loop a b)%Z.
Proof.
  revert b. induction a as [|x a IH]; intros [|y b]; simpl; try reflexivity.
  rewrite (Identifier_eqb_sym y x).
  destruct (Identifier_eqb x y); [apply IH|apply compareIdentifiers_antisym].
Qed.

Lemma comparePre_antisym p q : comparePre q p = (- comparePre p q)%Z.
Proof.
  unfold comparePre.
  pose proof (comparePre_loop_antisym (prerelease p) (prerelease q)) as H.
  destruct (prerelease p) as [|x a], (prerelease q) as [|y b]; try reflexivity.
  exact H.
Qed.

(** Exchanging the two versions negates the result of [compare]. *)
Lemma SemVer_compare_antisym p q : SemVer_compare q p = (- SemVer_compare p q)%Z.
Proof.
  unfold SemVer_compare. rewrite (String.eqb_sym (version p)).
  destruct (version q =? version p); [reflexivity|].
  now rewrite compareMain_antisym, comparePre_antisym, or_else_opp.
Qed.

(** [compare] does not throw on the [version] fields of constructed
    versions. *)
Lemma compare_versions s t p q :
  SemVer_new s = Normal p -> SemVer_new t = Normal q ->
  compare (version p) (version q) = Normal (SemVer_compare (reread p) (reread q)).
Proof.
  intros Hp Hq. unfold compare.
  rewrite (SemVer_new_version s p Hp), (SemVer_new_version t q Hq). reflexivity.
Qed.

End CompareFacts.

Module SortFacts.

Section Sorting.
Context {A : Type} (cmp : A -> A -> Completion Z).

Lemma insert_perm x l l' : insert cmp x l = Normal l' -> Permutation (x :: l) l'.
Proof.
  revert l'. induction l as [|y t IH]; simpl; intros l'.
  - intros [= <-]. apply Permutation_refl.
  - destruct (cmp x y) as [c|e]; simpl; [|discriminate].
    destruct (c <=? 0)%Z.
    + intros [= <-]. apply Permutation_refl.
    + destruct (insert cmp x t) as [t'|e] eqn:E; simpl; [|discriminate].
      intros [= <-]. rewrite perm_swap. apply perm_skip. now apply IH.
Qed.

Lemma sort_perm l l' : sort cmp l = Normal l' -> Permutation l l'.
Proof.
  revert l'. induction l as [|x t IH]; simpl; intros l'.
  - intros [= <-]. constructor.
  - destruct (sort cmp t) as [t'|e] eqn:E; simpl; [|discriminate].
    intros H. apply insert_perm in H.
    rewrite <- H. apply perm_skip. now apply IH.
Qed.

(** A set of elements on which the comparator returns, and on which
    exchanging the arguments negates its result. *)
Variable P : A -> Prop.
Hypothesis cmp_total : forall a b, P a -> P b ->
  exists z, cmp a b = Normal z /\ cmp b a = Normal (- z)%Z.

Lemma insert_sorted x l :
  P x -> Forall P l -> Sorted (before cmp) l ->
  exists l', insert cmp x l = Normal l' /\ Sorted (before cmp) l' /\
             forall y, before cmp y x -> HdRel (before cmp) y l -> HdRel (before cmp) y l'.
Proof.
  intros Px. induction l as [|y t IH]; intros Pl Sl; simpl.
  - eexists. split; [reflexivity|]. split; [repeat constructor|].
    intros y Hy _. now constructor.
  - inversion Pl as [|? ? Py Pt]; subst. inversion Sl as [|? ? St Hd]; subst.
    destruct (cmp_total x y Px Py) as (z & Hxy & Hyx). rewrite Hxy. simpl.
    destruct (z <=? 0)%Z eqn:Z.
    + apply Z.leb_le in Z. eexists. split; [reflexivity|]. split.
      * constructor; [assumption|]. constructor. now exists z.
      * intros w Hw _. now constructor.
    + apply Z.leb_gt in Z.
      destruct (IH Pt St) as (t' & Ht & St' & Hd'). rewrite Ht. simpl.
      eexists. split; [reflexivity|]. split.
      * constructor; [assumption|]. apply Hd'; [|assumption].
        exists (- z)%Z. split; [assumption|lia].
      * intros w _ Hw. inversion Hw; subst. now constructor.
Qed.

(** On such elements [sort] returns, and what it returns is a sorted
    rearrangement of its argument. *)
Lemma sort_sorted l :
  Forall P l ->
  exists l', sort cmp l = Normal l' /\ Permutation l l' /\ Sorted (before cmp) l'.
Proof.
  induction l as [|x t IH]; intros Pl; simpl.
  - exists []. repeat split; constructor.
  - inversion Pl as [|? ? Px Pt]; subst.
    destruct (IH Pt) as (t' & Ht & Perm & St). rewrite Ht. simpl.
    assert (Pt' : Forall P t').
    { rewrite Forall_forall in *. intros a Ha. apply Pt.
      eapply Permutation_in; [symmetry; exact Perm|exact Ha]. }
    destruct (insert_sorted x t' Px Pt' St) as (l' & Hl & Sl & _).
    exists l'. split; [assumption|]. split; [|assumption].
    rewrite <- (insert_perm _ _ _ Hl). now apply perm_skip.
Qed.
End Sorting.

End SortFacts.

Module OrderFacts.
Import Str StrFacts Semver Grammar SemverFacts FullFacts SemVerFacts CompareFacts SortFacts.
Import NodeManager Spec.

(** ** Consistent comparators *)

Section Consistent.
Context {A : Type} (D : A -> Prop).

Lemma or_else_consistent (f g : A -> A -> Z) :
  consistent D f -> consistent D g ->
  consistent D (fun a b => or_else (f a b) (g a b)).
Proof.
  intros [Fa Ft] [Ga Gt]. split.
  - intros a b Da Db. now rewrite Fa, Ga, or_else_opp.
  - intros a b x Da Db Dx. unfold or_else.
    pose proof (Fa a b Da Db). pose proof (Fa b x Db Dx). pose proof (Fa a x Da Dx).
    pose proof (Ft a b x Da Db Dx). pose proof (Ft x a b Dx Da Db).
    pose proof (Ft b x a Db Dx Da). pose proof (Ft x b a Dx Db Da).
    pose proof (Gt a b x Da Db Dx).
    destruct (f a b =? 0)%Z eqn:E1, (f b x =? 0)%Z eqn:E2, (f a x =? 0)%Z eqn:E3;
      rewrite ?Z.eqb_eq, ?Z.eqb_neq in *; lia.
Qed.
End Consistent.

(** ** Numbers *)

Lemma compare_numbers_consistent (f : SemVer -> N) :
  consistent (fun _ => True)
    (fun p q => compareIdentifiers (IdNum (f p)) (IdNum (f q))).
Proof.
  unfold compareIdentifiers. simpl. split.
  - intros a b _ _. rewrite (N.eqb_sym (f b)).
    destruct (f a =? f b)%N eqn:E; [reflexivity|]. apply N.eqb_neq in E.
    destruct (f a <? f b)%N eqn:L1, (f b <? f a)%N eqn:L2; try reflexivity;
      rewrite ?N.ltb_lt, ?N.ltb_ge in *; lia.
  - intros a b x _ _ _.
    destruct (f a =? f b)%N eqn:E1, (f b =? f x)%N eqn:E2, (f a =? f x)%N eqn:E3,
             (f a <? f b)%N eqn:L1, (f b <? f x)%N eqn:L2, (f a <? f x)%N eqn:L3;
      rewrite ?N.eqb_eq, ?N.eqb_neq, ?N.ltb_lt, ?N.ltb_ge in *; lia.
Qed.

Lemma compareMain_consistent : consistent (fun _ => True) compareMain.
Proof.
  unfold compareMain.
  apply (or_else_consistent _ _ _ (compare_numbers_consistent Semver.major)).
  apply (or_else_consistent _ _ _ (compare_numbers_consistent Semver.minor)).
  apply (compare_numbers_consistent Semver.patch).
Qed.

(** ** Strings *)

Lemma ltb_lt a b : Str.ltb a b = true <-> String_as_OT.lt a b.
Proof.
  unfold Str.ltb. rewrite <- String_as_OT.cmp_lt. unfold String_as_OT.cmp.
  destruct (String.compare a b); split; congruence.
Qed.

Lemma ltb_trans a b c : Str.ltb a b = true -> Str.ltb b c = true -> Str.ltb a c = true.
Proof. rewrite !ltb_lt. apply String_as_OT.lt_trans. Qed.

(** ** Identifiers *)

Lemma Identifier_eqb_eq a b : Identifier_eqb a b = true <-> a = b.
Proof.
  destruct a, b; simpl; rewrite ?N.eqb_eq, ?String.eqb_eq;
    split; congruence.
Qed.

Lemma Identifier_eqb_refl a : Identifier_eqb a a = true.
Proof. now apply Identifier_eqb_eq. Qed.

Lemma compareIdentifiers_refl a : compareIdentifiers a a = 0%Z.
Proof.
  unfold compareIdentifiers. rewrite Identifier_eqb_refl, N.eqb_refl.
  destruct (Identifier_numeric a); reflexivity.
Qed.

(** On tame identifiers the comparator answers [0] only for equal ones. *)
Lemma compareIdentifiers_zero a b :
  tame_id a -> tame_id b -> compareIdentifiers a b = 0%Z -> a = b.
Proof.
  unfold compareIdentifiers.
  destruct a as [x|s], b as [y|t]; simpl; intros Ta Tb.
  - destruct (x =? y)%N eqn:E; [apply N.eqb_eq in E; congruence|].
    destruct (x <? y)%N; discriminate.
  - rewrite Tb. discriminate.
  - rewrite Ta. discriminate.
  - rewrite Ta, Tb. simpl. destruct (s =? t) eqn:E.
    + apply String.eqb_eq in E. congruence.
    + destruct (Str.ltb s t); discriminate.
Qed.

Lemma compareIdentifiers_consistent : consistent tame_id compareIdentifiers.
Proof.
  split; [intros a b _ _; apply compareIdentifiers_antisym|].
  intros a b x Ta Tb Tx. unfold compareIdentifiers.
  destruct a as [i|s], b as [j|t], x as [k|u]; simpl in *;
    rewrite ?Ta, ?Tb, ?Tx; simpl; try lia.
  - destruct (i =? j)%N eqn:E1, (j =? k)%N eqn:E2, (i =? k)%N eqn:E3,
             (i <? j)%N eqn:L1, (j <? k)%N eqn:L2, (i <? k)%N eqn:L3;
      rewrite ?N.eqb_eq, ?N.eqb_neq, ?N.ltb_lt, ?N.ltb_ge in *; lia.
  - destruct (s =? t) eqn:E1; [apply String.eqb_eq in E1; subst; trivial|].
    destruct (t =? u) eqn:E2; [apply String.eqb_eq in E2; subst; now rewrite E1|].
    destruct (Str.ltb s t) eqn:L1; [|lia]. destruct (Str.ltb t u) eqn:L2; [|lia].
    intros _ _. rewrite (ltb_trans _ _ _ L1 L2).
    destruct (s =? u); lia.
Qed.

Lemma numberify_tame id :
  numeric_test id = false \/ (Number_of_string id < MAX_SAFE_INTEGER)%N ->
  tame_id (numberify id).
Proof.
  unfold numberify. destruct (numeric_test id) eqn:T; [|now simpl].
  intros [H|H]; [discriminate|]. apply N.ltb_lt in H. now rewrite H.
Qed.

(** ** Prerelease lists *)

Lemma comparePre_loop_consistent : consistent (Forall tame_id) comparePre_loop.
Proof.
  destruct compareIdentifiers_consistent as [Ca Ct].
  split; [intros a b _ _; apply comparePre_loop_antisym|].
  intros a. induction a as [|i a IH]; intros [|j b] [|k x] Ta Tb Tx; simpl; try lia.
  inversion Ta as [|? ? Ti Ta']; inversion Tb as [|? ? Tj Tb'];
    inversion Tx as [|? ? Tk Tx']; subst.
  destruct (Identifier_eqb i j) eqn:E1.
  - apply Identifier_eqb_eq in E1. subst j.
    destruct (Identifier_eqb i k); [now apply IH|trivial].
  - destruct (Identifier_eqb j k) eqn:E2.
    + apply Identifier_eqb_eq in E2. subst k. now rewrite E1.
    + intros H1 H2. pose proof (Ct i j k Ti Tj Tk H1 H2) as H3.
      destruct (Identifier_eqb i k) eqn:E3; [|exact H3].
      apply Identifier_eqb_eq in E3. subst k. exfalso.
      assert (Z : compareIdentifiers i j = 0%Z) by (rewrite (Ca i j Ti Tj) in H2; lia).
      apply (compareIdentifiers_zero i j Ti Tj) in Z. subst j.
      now rewrite Identifier_eqb_refl in E1.
Qed.

Lemma comparePre_consistent : consistent tame comparePre.
Proof.
  destruct comparePre_loop_consistent as [_ Lt].
  split; [intros a b _ _; apply comparePre_antisym|].
  unfold tame, comparePre. intros p q r Tp Tq Tr.
  pose proof (Lt (prerelease p) (prerelease q) (prerelease r) Tp Tq Tr) as H.
  destruct (prerelease p) as [|i a], (prerelease q) as [|j b],
           (prerelease r) as [|k x]; try lia; exact H.
Qed.

Lemma tame_weaken (c : SemVer -> SemVer -> Z) :
  consistent (fun _ => True) c -> consistent tame c.
Proof.
  intros [Ca Ct]. split.
  - intros a b _ _. now apply Ca.
  - intros a b x _ _ _. now apply Ct.
Qed.

Lemma compare_fields_consistent : consistent tame compare_fields.
Proof.
  apply or_else_consistent; [|apply comparePre_consistent].
  apply tame_weaken, compareMain_consistent.
Qed.

Lemma comparePre_loop_refl l : comparePre_loop l l = 0%Z.
Proof.
  induction l as [|x l IH]; simpl; [reflexivity|].
  now rewrite Identifier_eqb_refl.
Qed.

Lemma compare_fields_refl p : compare_fields p p = 0%Z.
Proof.
  unfold compare_fields, compareMain, comparePre.
  rewrite !compareIdentifiers_refl.
  change (or_else 0 (or_else 0 0)) with 0%Z. unfold or_else at 1.
  change (0 =? 0)%Z with true. cbv iota.
  destruct (prerelease p) as [|i a]; [reflexivity|].
  apply comparePre_loop_refl.
Qed.

(** Two constructed versions with the same [version] string have the same
    numbers and identifiers. *)
Lemma reread_inj s t p q :
  SemVer_new s = Normal p -> SemVer_new t = Normal q ->
  Semver.version p = Semver.version q -> reread p = reread q.
Proof.
  intros Hp Hq E. apply SemVer_new_version in Hp, Hq.
  fold (reread p) in Hp. fold (reread q) in Hq. rewrite E in Hp. congruence.
Qed.

(** On constructed versions the shortcut of [compare] for equal [version]
    strings agrees with the comparison of the fields. *)
Lemma SemVer_compare_fields s t p q :
  SemVer_new s = Normal p -> SemVer_new t = Normal q ->
  SemVer_compare (reread p) (reread q) = compare_fields p q.
Proof.
  intros Hp Hq. unfold SemVer_compare. simpl.
  destruct (Semver.version q =? Semver.version p) eqn:E; [|reflexivity].
  apply String.eqb_eq in E. symmetry in E.
  pose proof (reread_inj s t p q Hp Hq E) as R.
  change (compare_fields p q) with (compare_fields (reread p) (reread q)).
  rewrite R. symmetry. apply compare_fields_refl.
Qed.

End OrderFacts.

Module ManagerFacts.
Import Str StrFacts Semver Grammar SemverFacts FullFacts SemVerFacts CompareFacts SortFacts.
Import NodeManager Spec.

Lemma parseVersion_cases s :
  (exists p, SemVer_new (replace_leading_v s) = Normal p /\
             parseVersion s = Normal (Some (describe p))) \/
  (exists e, SemVer_new (replace_leading_v s) = Throw e /\
             parseVersion s = Normal None).
Proof.
  unfold parseVersion, parse.
  destruct (SemVer_new (replace_leading_v s)) as [p|e] eqn:E; simpl.
  - left. now exists p.
  - right. now exists e.
Qed.

Lemma parseVersion_some s d :
  parseVersion s = Normal (Some d) ->
  exists p, SemVer_new (replace_leading_v s) = Normal p /\ d = describe p.
Proof.
  destruct (parseVersion_cases s) as [(p & Hp & ->)|(e & _ & ->)]; [|discriminate].
  intros [= <-]. now exists p.
Qed.

Lemma append_cancel a g : a ++ g = a -> g = "".
Proof.
  induction a as [|c a IH]; simpl; [trivial|]. intros [= H]. auto.
Qed.

Lemma version_of_match_render raw m :
  well_formed m = true -> safe m ->
  Semver.version (of_match raw m) = render (without_build m).
Proof. intros W S. rewrite <- (format_render m W S). reflexivity. Qed.

Lemma canonical_of_match raw m :
  well_formed m = true -> safe m ->
  canonical (describe (of_match raw m)) = "v" ++ m1 m ++ "." ++ m2 m ++ "." ++ m3 m.
Proof.
  intros W (S1 & S2 & S3). unfold canonical, describe, of_match.
  cbn [NodeManager.major NodeManager.minor NodeManager.patch
       Semver.major Semver.minor Semver.patch].
  unfold well_formed in W. rewrite !andb_true_iff in W.
  destruct W as [[[[Ha Hb] Hc] _] _].
  now rewrite !Number_toString_of_string.
Qed.

Lemma safe_exact m :
  safe m ->
  (digits_value (m1 m) <= MAX_SAFE_INTEGER)%N /\
  (digits_value (m2 m) <= MAX_SAFE_INTEGER)%N /\
  (digits_value (m3 m) <= MAX_SAFE_INTEGER)%N.
Proof.
  unfold safe, Number_of_string. intros (S1 & S2 & S3).
  rewrite <- (round_double_safe _ S1), <- (round_double_safe _ S2),
          <- (round_double_safe _ S3). auto.
Qed.

Lemma exact_safe m :
  (digits_value (m1 m) <= MAX_SAFE_INTEGER)%N ->
  (digits_value (m2 m) <= MAX_SAFE_INTEGER)%N ->
  (digits_value (m3 m) <= MAX_SAFE_INTEGER)%N -> safe m.
Proof.
  unfold safe, Number_of_string, MAX_SAFE_INTEGER. intros S1 S2 S3.
  rewrite !round_double_exact; auto;
    change (2 ^ 53)%N with 9007199254740992%N; lia.
Qed.

(** The constructor accepts exactly the valid versions. *)
Lemma SemVer_new_valid s : returns (SemVer_new s) <-> valid_semver s.
Proof.
  split.
  - intros [p H]. destruct (SemVer_new_inv s p H) as (m & L & M & S & _).
    destruct (match_FULL_sound _ _ M) as [W R].
    split; [assumption|]. exists m. pose proof (safe_exact m S). tauto.
  - intros (L & m & W & R & S1 & S2 & S3).
    exists (of_match s m). apply SemVer_new_intro; auto using exact_safe.
    destruct R as [-> | ->]; auto using match_FULL_render, match_FULL_v_render.
Qed.

End ManagerFacts.

Module ParseVersion.
Import Str StrFacts Semver Grammar SemverFacts FullFacts SemVerFacts CompareFacts SortFacts.
Import NodeManager Spec ManagerFacts.

(** C1, as stated, fails: a version with a prerelease suffix is accepted and
    its [version] field keeps the suffix, so it differs from
    ["v" + major + "." + minor + "." + patch]. *)
Lemma parseVersion_prerelease_kept :
  exists d, parseVersion "v1.2.3-beta.1" = Normal (Some d) /\
            NodeManager.version d = "v1.2.3-beta.1" /\
            canonical d = "v1.2.3" /\
            NodeManager.version d <> canonical d.
Proof.
  eexists. split; [vm_compute; reflexivity|].
  split; [reflexivity|]. split; [reflexivity|]. discriminate.
Qed.

(** C1 (amended): for every string [s] that [parseVersion] accepts, [s] is,
    between optional white space and after at most two leading "v", the
    rendering of well-formed groups, and the [version] field is
    ["v" + major + "." + minor + "." + patch] followed by the prerelease
    suffix of [s] ("-" and its identifiers) when [s] has one; the field is
    exactly ["v" + major + "." + minor + "." + patch] if and only if [s] has
    no prerelease suffix, whether or not it has a build suffix. *)
Theorem parseVersion_version s d :
  parseVersion s = Normal (Some d) ->
  exists m, well_formed m = true /\
            (trim (replace_leading_v s) = render m \/
             trim (replace_leading_v s) = "v" ++ render m) /\
            NodeManager.version d = canonical d ++ group "-" (m4 m) /\
            (NodeManager.version d = canonical d <-> m4 m = None).
Proof.
  intros H. destruct (parseVersion_some s d H) as (p & Hp & ->).
  destruct (SemVer_new_inv _ p Hp) as (m & _ & M & S & ->).
  destruct (match_FULL_sound _ _ M) as [W R].
  exists m. split; [assumption|]. split; [assumption|].
  assert (V : NodeManager.version (describe (of_match (replace_leading_v s) m))
              = canonical (describe (of_match (replace_leading_v s) m))
                ++ group "-" (m4 m)).
  { rewrite (canonical_of_match _ m W S).
    change (NodeManager.version (describe (of_match (replace_leading_v s) m)))
      with ("v" ++ Semver.version (of_match (replace_leading_v s) m)).
    rewrite (version_of_match_render _ m W S).
    unfold render, without_build. cbn [m1 m2 m3 m4 m5 group].
    repeat (rewrite ?append_assoc; cbn [append]). now rewrite append_nil_r. }
  split; [exact V|]. rewrite V. split.
  - intros E. apply append_cancel in E. destruct (m4 m); [discriminate|reflexivity].
  - intros ->. apply append_nil_r.
Qed.

Lemma parseVersion_version_witness :
  parseVersion " v1.2.3+build.7 " =
    Normal (Some (mkNodeVersion "v1.2.3" 1 2 3 None None)) /\
  exists m, well_formed m = true /\
            (trim (replace_leading_v " v1.2.3+build.7 ") = render m \/
             trim (replace_leading_v " v1.2.3+build.7 ") = "v" ++ render m) /\
            "v1.2.3" = canonical (mkNodeVersion "v1.2.3" 1 2 3 None None)
                       ++ group "-" (m4 m) /\
            ("v1.2.3" = canonical (mkNodeVersion "v1.2.3" 1 2 3 None None)
             <-> m4 m = None).
Proof.
  split; [vm_compute; reflexivity|].
  apply (parseVersion_version " v1.2.3+build.7 "
           (mkNodeVersion "v1.2.3" 1 2 3 None None)).
  vm_compute. reflexivity.
Defined.

(** C4: for every string that is not a valid semantic version once an
    optional leading "v" is removed, [parseVersion] returns normally, with
    the absent result. *)
Theorem parseVersion_invalid s :
  ~ valid_semver (replace_leading_v s) -> parseVersion s = Normal None.
Proof.
  intros NV.
  destruct (parseVersion_cases s) as [(p & Hp & _)|(e & _ & H)]; [|exact H].
  exfalso. apply NV. apply SemVer_new_valid. now exists p.
Qed.

Lemma not_a_version_invalid : ~ valid_semver (replace_leading_v "not-a-version").
Proof.
  intros V. apply SemVer_new_valid in V. destruct V as [p V].
  vm_compute in V. discriminate V.
Qed.

Lemma parseVersion_invalid_witness :
  ~ valid_semver (replace_leading_v "not-a-version") /\
  parseVersion "not-a-version" = Normal None.
Proof.
  split; [exact not_a_version_invalid|].
  exact (parseVersion_invalid "not-a-version" not_a_version_invalid).
Defined.

(** [parseVersion] never throws, and accepts every valid version. *)
Lemma parseVersion_returns s : returns (parseVersion s).
Proof.
  destruct (parseVersion_cases s) as [(p & _ & ->)|(e & _ & ->)]; eexists; reflexivity.
Qed.

Lemma parseVersion_valid s :
  valid_semver (replace_leading_v s) -> exists d, parseVersion s = Normal (Some d).
Proof.
  intros V. apply SemVer_new_valid in V. destruct V as [p V].
  destruct (parseVersion_cases s) as [(q & _ & ->)|(e & E & _)]; [now eexists|].
  congruence.
Qed.

(** C9: parsing the [version] field of a descriptor that [parseVersion]
    returned gives that descriptor again. *)
Theorem parseVersion_idempotent s d :
  parseVersion s = Normal (Some d) ->
  parseVersion (NodeManager.version d) = Normal (Some d).
Proof.
  intros H. destruct (parseVersion_some s d H) as (p & Hp & ->).
  unfold parseVersion, parse.
  change (replace_leading_v (NodeManager.version (describe p)))
    with (Semver.version p).
  rewrite (SemVer_new_version _ p Hp). reflexivity.
Qed.

Lemma parseVersion_idempotent_witness :
  parseVersion " v1.2.3-rc.1+build.7 " =
    Normal (Some (mkNodeVersion "v1.2.3-rc.1" 1 2 3 None None)) /\
  parseVersion "v1.2.3-rc.1" =
    Normal (Some (mkNodeVersion "v1.2.3-rc.1" 1 2 3 None None)).
Proof.
  split; [vm_compute; reflexivity|].
  apply (parseVersion_idempotent " v1.2.3-rc.1+build.7 "
           (mkNodeVersion "v1.2.3-rc.1" 1 2 3 None None)).
  vm_compute. reflexivity.
Defined.

End ParseVersion.

Module Environment.
Import Str NodeManager Spec.




End Environment.

Module Construction.
Import Str NodeManager Spec Sample.

(** C3: the constructor computes the default for a field that is present
    without a value, and then the spread of [config] puts [undefined] back:
    the install directory of the manager is [undefined], not
    [<user-home>/.ldesign/node]. *)
Theorem constructor_undefined_installDir (h : Host) :
  get (installDir (constructor h (Some undefined_installDir))) = None /\
  get (installDir (constructor h None))
    = Some (path_join h [os_homedir h; ".ldesign"; "node"]).
Proof. split; reflexivity. Qed.

(** Fields that are absent from the argument do get their defaults, and the
    fields given a value keep it. *)
Lemma constructor_absent (h : Host) (config : NodeManagerConfig) :
  let c := constructor h (Some config) in
  (installDir config = Absent ->
   get (installDir c) = Some (path_join h [os_homedir h; ".ldesign"; "node"])) /\
  (mirror config = Absent -> get (mirror c) = Some "https://nodejs.org/dist") /\
  (verbose config = Absent -> get (verbose c) = Some false) /\
  (forall d, get (installDir config) = Some d -> get (installDir c) = Some d) /\
  (forall d, get (mirror config) = Some d -> get (mirror c) = Some d) /\
  (forall b, get (verbose config) = Some b -> get (verbose c) = Some b) /\
  get (proxy c) = get (proxy config).
Proof.
  destruct config as [i m p v]. simpl. repeat split.
  - intros ->. reflexivity.
  - intros ->. reflexivity.
  - intros ->. reflexivity.
  - destruct i as [|[x|]]; simpl; congruence.
  - destruct m as [|[x|]]; simpl; congruence.
  - destruct v as [|[x|]]; simpl; congruence.
  - destruct p; reflexivity.
Qed.

End Construction.

Module Discovery.
Import Str StrFacts Semver Grammar SemverFacts FullFacts SemVerFacts CompareFacts SortFacts.
Import NodeManager Spec ManagerFacts OrderFacts.

(** ** The loop *)

Lemma scan_inv h dir env entries acc l :
  scan h dir env entries acc = Normal l ->
  l = (acc ++ flat_map (produced h dir env) entries)%list.
Proof.
  revert acc. induction entries as [|entry rest IH]; intros acc; simpl.
  - intros [= <-]. now rewrite List.app_nil_r.
  - unfold produced, discovered, candidate.
    destruct (isDirectory entry && startsWith "v" (name entry)).
    + destruct (parseVersion_cases (name entry)) as [(p & _ & ->)|(e & _ & ->)]; simpl.
      * destruct dir as [d|]; simpl; [|discriminate].
        intros H. apply IH in H. rewrite H, <- List.app_assoc. simpl.
        unfold produced, discovered, candidate, isCurrent. reflexivity.
      * intros H. apply IH in H. rewrite H. unfold produced.
        destruct dir; reflexivity.
    + intros H. apply IH in H. rewrite H. unfold produced.
      destruct dir; reflexivity.
Qed.

Lemma scan_some h d env entries acc :
  scan h (Some d) env entries acc
  = Normal (acc ++ flat_map (discovered h d env) entries)%list.
Proof.
  revert acc. induction entries as [|entry rest IH]; intros acc; simpl.
  - now rewrite List.app_nil_r.
  - unfold discovered at 1, candidate.
    destruct (isDirectory entry && startsWith "v" (name entry)).
    + destruct (parseVersion_cases (name entry)) as [(p & _ & ->)|(e & _ & ->)]; simpl.
      * rewrite IH, <- List.app_assoc. reflexivity.
      * apply IH.
    + apply IH.
Qed.

(** What one child contributes. *)
Lemma discovered_inv h d env entry v :
  In v (discovered h d env entry) ->
  exists s p, SemVer_new s = Normal p /\
              info v = describe p /\ path v = path_join h [d; name entry] /\
              current v = isCurrent env entry /\ default v = false.
Proof.
  unfold discovered. destruct (candidate entry); [|intros []].
  destruct (parseVersion_cases (name entry)) as [(p & Hp & ->)|(e & _ & ->)];
    [|intros []].
  intros [<-|[]]. exists (replace_leading_v (name entry)), p. auto.
Qed.

Lemma produced_inv h dir env entries v :
  In v (flat_map (produced h dir env) entries) ->
  exists entry d, In entry entries /\ dir = Some d /\ In v (discovered h d env entry).
Proof.
  rewrite in_flat_map. intros (entry & Hin & Hv).
  destruct dir as [d|]; [|destruct Hv]. now exists entry, d.
Qed.

(** ** The comparator of the final [sort] *)

Lemma comparator_total a b :
  parsed a -> parsed b ->
  exists z, comparator a b = Normal z /\ comparator b a = Normal (- z)%Z.
Proof.
  intros (s & p & Hp & Ia) (t & q & Hq & Ib).
  unfold comparator, compareVersions. rewrite Ia, Ib.
  change (replace_leading_v (NodeManager.version (describe p))) with (Semver.version p).
  change (replace_leading_v (NodeManager.version (describe q))) with (Semver.version q).
  rewrite (compare_versions _ _ _ _ Hq Hp), (compare_versions _ _ _ _ Hp Hq).
  eexists. split; [reflexivity|]. now rewrite SemVer_compare_antisym.
Qed.




(** ** The whole call *)

Lemma getInstalledVersions_returns h config :
  exists l, snd (getInstalledVersions h config) = Normal l.
Proof.
  unfold getInstalledVersions.
  destruct (getInstalledVersions_try h config); eexists; reflexivity.
Qed.

Lemma getInstalledVersions_try_inv h config l :
  getInstalledVersions_try h config = Normal l ->
  l = [] \/
  exists entries,
    fs_readdir h (get (installDir config)) = Normal entries /\
    Permutation
      (flat_map (produced h (get (installDir config)) (currentEnv h)) entries) l.
Proof.
  unfold getInstalledVersions_try.
  destruct (fs_pathExists h (get (installDir config))) as [[|]|]; simpl;
    [|intros [= <-]; now left|discriminate].
  destruct (fs_readdir h (get (installDir config))) as [entries|]; simpl;
    [|discriminate].
  fold (currentEnv h).
  destruct (scan h (get (installDir config)) (currentEnv h) entries [])
    as [versions|] eqn:S; simpl; [|discriminate].
  apply scan_inv in S. simpl in S. subst versions.
  intros H. apply sort_perm in H. right. now exists entries.
Qed.

Lemma getInstalledVersions_inv h config l :
  snd (getInstalledVersions h config) = Normal l ->
  l = [] \/
  exists entries,
    fs_readdir h (get (installDir config)) = Normal entries /\
    Permutation
      (flat_map (produced h (get (installDir config)) (currentEnv h)) entries) l.
Proof.
  unfold getInstalledVersions.
  destruct (getInstalledVersions_try h config) as [l'|] eqn:T; simpl.
  - intros [= <-]. now apply getInstalledVersions_try_inv.
  - intros [= <-]. now left.
Qed.

(** Every returned entry was contributed by a child of the directory. *)
Lemma getInstalledVersions_entry h config l v :
  snd (getInstalledVersions h config) = Normal l -> In v l ->
  exists entries entry d,
    fs_readdir h (get (installDir config)) = Normal entries /\
    In entry entries /\ In v (discovered h d (currentEnv h) entry).
Proof.
  intros H Hin. destruct (getInstalledVersions_inv h config l H)
    as [->|(entries & R & Perm)]; [destruct Hin|].
  apply (Permutation_in _ (Permutation_sym Perm)) in Hin.
  destruct (produced_inv _ _ _ _ _ Hin) as (entry & d & He & _ & Hv).
  now exists entries, entry, d.
Qed.


End Discovery.

Module Installed.
Import Str StrFacts Semver Grammar SemverFacts FullFacts SemVerFacts CompareFacts SortFacts.
Import NodeManager Spec ManagerFacts Discovery.
Import Sample.

Lemma getInstalledVersions_posix :
  getInstalledVersions Sample.posix (constructor Sample.posix None)
  = ([], Normal [v20; v18]).
Proof. vm_compute. reflexivity. Qed.

Lemma children_tame : Forall (fun entry => tame_name (name entry)) children.
Proof.
  repeat constructor; intros p H; vm_compute in H;
    solve [discriminate H | injection H as <-; constructor].
Qed.


(** C6: [getInstalledVersions] always returns normally; it returns the
    empty list when the install directory does not exist, and whenever the
    existence test, the listing or anything else in its [try] block throws
    (the error is logged when [verbose] is set, never passed on). *)
Theorem getInstalledVersions_never_throws h config :
  (exists l, snd (getInstalledVersions h config) = Normal l) /\
  (fs_pathExists h (get (installDir config)) = Normal false ->
   getInstalledVersions h config = ([], Normal [])) /\
  (forall e, getInstalledVersions_try h config = Throw e ->
     getInstalledVersions h config =
       (if truthy (get (verbose config))
        then [console_error "Failed to get installed versions:" e] else [],
        Normal [])) /\
  (forall e, fs_pathExists h (get (installDir config)) = Throw e ->
     getInstalledVersions_try h config = Throw e) /\
  (forall e, fs_pathExists h (get (installDir config)) = Normal true ->
     fs_readdir h (get (installDir config)) = Throw e ->
     getInstalledVersions_try h config = Throw e).
Proof.
  split; [apply getInstalledVersions_returns|].
  unfold getInstalledVersions, getInstalledVersions_try. repeat split.
  - intros ->. reflexivity.
  - intros e ->. reflexivity.
  - intros e ->. reflexivity.
  - intros e -> ->. reflexivity.
Qed.

Lemma getInstalledVersions_never_throws_witness :
  getInstalledVersions Sample.posix
    (constructor Sample.posix
       (Some (mkConfig (Present (Some "/nowhere")) Absent Absent Absent)))
    = ([], Normal []) /\
  getInstalledVersions unreadable
    (constructor unreadable (Some (mkConfig Absent Absent Absent (Present (Some true)))))
    = ([console_error "Failed to get installed versions:"
          (Error "EACCES: permission denied, scandir")], Normal []).
Proof.
  split.
  - apply (proj1 (proj2 (getInstalledVersions_never_throws Sample.posix _))).
    reflexivity.
  - destruct (getInstalledVersions_never_throws unreadable
                (constructor unreadable
                   (Some (mkConfig Absent Absent Absent (Present (Some true))))))
      as (_ & _ & H & _).
    rewrite (H (Error "EACCES: permission denied, scandir")); reflexivity.
Defined.

(** C7: every entry of every list [getInstalledVersions] returns has its
    [default] flag unset. *)
Theorem getInstalledVersions_default_false h config l :
  snd (getInstalledVersions h config) = Normal l ->
  Forall (fun v => default v = false) l.
Proof.
  intros H. rewrite Forall_forall. intros v Hv.
  destruct (getInstalledVersions_entry h config l v H Hv)
    as (entries & entry & d & _ & _ & Hd).
  now destruct (discovered_inv _ _ _ _ _ Hd) as (_ & _ & _ & _ & _ & _ & D).
Qed.

Lemma getInstalledVersions_default_false_witness :
  Forall (fun v => default v = false) [v20; v18].
Proof.
  apply (getInstalledVersions_default_false Sample.posix
           (constructor Sample.posix None) [v20; v18]).
  vm_compute. reflexivity.
Defined.

(** C8: [isVersionInstalled(s)] returns, and returns [true] exactly when an
    entry of the list [getInstalledVersions] returns on the same host has
    the [version] string [s]; the strings are compared as they are, so an
    [s] that does not start with "v" is never found. *)
Theorem isVersionInstalled_exact h config s :
  exists l b,
    snd (getInstalledVersions h config) = Normal l /\
    isVersionInstalled h config s = (fst (getInstalledVersions h config), Normal b) /\
    (b = true <-> exists v, In v l /\ NodeManager.version (info v) = s) /\
    (startsWith "v" s = false -> b = false).
Proof.
  destruct (getInstalledVersions_returns h config) as [l Hl].
  exists l, (List.existsb (fun v => (NodeManager.version (info v) =? s)%string) l).
  split; [assumption|]. split.
  - unfold isVersionInstalled.
    destruct (getInstalledVersions h config) as [out r]. simpl in *. now subst r.
  - split.
    + rewrite existsb_exists. split; intros (v & Hv & E); exists v; split; auto;
        now apply String.eqb_eq.
    + intros V. apply not_true_is_false. rewrite existsb_exists.
      intros (v & Hv & E). apply String.eqb_eq in E.
      destruct (getInstalledVersions_entry h config l v Hl Hv)
        as (entries & entry & d & _ & _ & Hd).
      destruct (discovered_inv _ _ _ _ _ Hd) as (t & p & _ & I & _).
      rewrite I in E. subst s. unfold startsWith in V. simpl in V.
      destruct (Semver.version p); discriminate V.
Qed.

Lemma isVersionInstalled_examples :
  isVersionInstalled Sample.posix (constructor Sample.posix None) "v20.0.0"
    = ([], Normal true) /\
  isVersionInstalled Sample.posix (constructor Sample.posix None) "20.0.0"
    = ([], Normal false).
Proof. split; vm_compute; reflexivity. Qed.

Lemma filter_length_perm {A} (f : A -> bool) l l' :
  Permutation l l' -> length (filter f l) = length (filter f l').
Proof.
  induction 1; simpl; try congruence.
  - destruct (f x); simpl; congruence.
  - destruct (f x), (f y); reflexivity.
Qed.

Lemma current_count h dir env entries :
  (length (filter current (flat_map (produced h dir env) entries))
   <= length (filter (isCurrent env) entries))%nat.
Proof.
  induction entries as [|entry rest IH]; simpl; [lia|].
  rewrite filter_app, length_app.
  assert (H : (length (filter current (produced h dir env entry))
               <= if isCurrent env entry then 1 else 0)%nat).
  { unfold produced, discovered. destruct dir; [|simpl; lia].
    destruct (candidate entry); [|simpl; lia].
    destruct (parseVersion (name entry)) as [[i|]|]; simpl; try lia.
    destruct (isCurrent env entry); simpl; lia. }
  destruct (isCurrent env entry); simpl; lia.
Qed.

Lemma isCurrent_name env x y :
  isCurrent env x = true -> isCurrent env y = true -> name x = name y.
Proof.
  destruct env as [e|]; simpl; [|discriminate].
  rewrite !String.eqb_eq. congruence.
Qed.

Lemma isCurrent_distinct env entries :
  NoDup (map name entries) -> (length (filter (isCurrent env) entries) <= 1)%nat.
Proof.
  induction entries as [|x rest IH]; simpl; [lia|].
  intros ND. inversion ND as [|? ? Hx ND']; subst.
  destruct (isCurrent env x) eqn:E; [|auto]. simpl.
  assert (Z : filter (isCurrent env) rest = []).
  { clear IH ND ND'. induction rest as [|y rest IH]; [reflexivity|]. simpl.
    destruct (isCurrent env y) eqn:E'.
    - exfalso. apply Hx. left. symmetry. now apply (isCurrent_name env).
    - apply IH. intros Hin. apply Hx. now right. }
  rewrite Z. simpl. lia.
Qed.

(** C10: when the names listed in the install directory are distinct, at
    most one returned entry has its [current] flag set; when the
    environment query fails, none has. *)
Theorem getInstalledVersions_current_unique h config l :
  snd (getInstalledVersions h config) = Normal l ->
  (forall entries, fs_readdir h (get (installDir config)) = Normal entries ->
                   NoDup (map name entries)) ->
  (length (filter current l) <= 1)%nat /\
  (forall e, getCurrentEnvironment h = Throw e ->
             Forall (fun v => current v = false) l).
Proof.
  intros H ND. split.
  - destruct (getInstalledVersions_inv h config l H) as [->|(entries & R & Perm)];
      [simpl; lia|].
    rewrite <- (filter_length_perm current _ _ Perm).
    pose proof (current_count h (get (installDir config)) (currentEnv h) entries).
    pose proof (isCurrent_distinct (currentEnv h) entries (ND entries R)). lia.
  - intros e He. rewrite Forall_forall. intros v Hv.
    destruct (getInstalledVersions_entry h config l v H Hv)
      as (entries & entry & d & _ & _ & Hd).
    destruct (discovered_inv _ _ _ _ _ Hd) as (_ & _ & _ & _ & _ & C & _).
    rewrite C. unfold currentEnv. now rewrite He.
Qed.

Lemma getInstalledVersions_current_unique_witness :
  (length (filter current [v20; v18]) <= 1)%nat /\
  (forall e, getCurrentEnvironment Sample.posix = Throw e ->
             Forall (fun v => current v = false) [v20; v18]).
Proof.
  apply (getInstalledVersions_current_unique Sample.posix
           (constructor Sample.posix None) [v20; v18]).
  - vm_compute. reflexivity.
  - intros entries E. vm_compute in E. injection E as <-.
    repeat constructor; simpl; intuition discriminate.
Defined.

End Installed.

(* ================================================================== *)
(** * Further properties of the manager *)

Module OrderingFacts.
Import Str StrFacts Semver Grammar SemverFacts FullFacts SemVerFacts CompareFacts SortFacts.
Import NodeManager Spec ManagerFacts OrderFacts Terms.

Lemma compareVersions_inv a b z :
  compareVersions a b = Normal z ->
  exists p q, SemVer_new (replace_leading_v a) = Normal p /\
              SemVer_new (replace_leading_v b) = Normal q /\
              z = SemVer_compare p q.
Proof.
  unfold compareVersions, compare.
  destruct (SemVer_new (replace_leading_v a)) as [p|]; [|discriminate].
  destruct (SemVer_new (replace_leading_v b)) as [q|]; [|discriminate].
  simpl. intros [= <-]. now exists p, q.
Qed.

Lemma compareVersions_intro a b p q :
  SemVer_new (replace_leading_v a) = Normal p ->
  SemVer_new (replace_leading_v b) = Normal q ->
  compareVersions a b = Normal (SemVer_compare p q).
Proof. intros Hp Hq. unfold compareVersions, compare. now rewrite Hp, Hq. Qed.

Lemma accepted_iff s : accepted s <-> returns (SemVer_new (replace_leading_v s)).
Proof.
  unfold accepted, returns. split.
  - intros [d H]. destruct (parseVersion_some s d H) as (p & Hp & _). now exists p.
  - intros [p Hp].
    destruct (parseVersion_cases s) as [(q & _ & ->)|(e & E & _)]; [now eexists|].
    congruence.
Qed.

(** On constructed versions [compare] is the comparison of the fields. *)
Lemma SemVer_compare_constructed s t p q :
  SemVer_new s = Normal p -> SemVer_new t = Normal q ->
  SemVer_compare p q = compare_fields p q.
Proof.
  intros Hp Hq. rewrite <- (SemVer_compare_fields s t p q Hp Hq). reflexivity.
Qed.

Lemma compareIdentifiers_sign a b :
  compareIdentifiers a b = (-1)%Z \/ compareIdentifiers a b = 0%Z \/
  compareIdentifiers a b = 1%Z.
Proof.
  unfold compareIdentifiers.
  repeat match goal with |- context [if ?c then _ else _] => destruct c end; auto.
Qed.

Lemma or_else_sign x y :
  (x = -1 \/ x = 0 \/ x = 1)%Z -> (y = -1 \/ y = 0 \/ y = 1)%Z ->
  (or_else x y = -1 \/ or_else x y = 0 \/ or_else x y = 1)%Z.
Proof. unfold or_else. destruct (x =? 0)%Z; auto. Qed.

Lemma comparePre_loop_sign a b :
  (comparePre_loop a b = -1 \/ comparePre_loop a b = 0 \/ comparePre_loop a b = 1)%Z.
Proof.
  revert b. induction a as [|x a IH]; intros [|y b]; simpl; auto.
  destruct (Identifier_eqb x y); [apply IH|apply compareIdentifiers_sign].
Qed.

Lemma SemVer_compare_sign p q :
  (SemVer_compare p q = -1 \/ SemVer_compare p q = 0 \/ SemVer_compare p q = 1)%Z.
Proof.
  unfold SemVer_compare. destruct (Semver.version q =? Semver.version p); [auto|].
  apply or_else_sign.
  - unfold compareMain. repeat apply or_else_sign; apply compareIdentifiers_sign.
  - unfold comparePre.
    destruct (prerelease p), (prerelease q); auto. apply comparePre_loop_sign.
Qed.

Lemma constructed_version s p :
  SemVer_new s = Normal p ->
  Semver.version p =
  format (Semver.major p) (Semver.minor p) (Semver.patch p) (prerelease p).
Proof.
  intros H. destruct (SemVer_new_inv s p H) as (m & _ & _ & _ & ->). reflexivity.
Qed.

Lemma or_else_zero x y : or_else x y = 0%Z -> x = 0%Z /\ y = 0%Z.
Proof.
  unfold or_else. destruct (x =? 0)%Z eqn:E.
  - apply Z.eqb_eq in E. auto.
  - apply Z.eqb_neq in E. intros H. contradiction.
Qed.

Lemma compare_numbers_zero x y :
  compareIdentifiers (IdNum x) (IdNum y) = 0%Z -> x = y.
Proof.
  intros H. apply (compareIdentifiers_zero (IdNum x) (IdNum y) I I) in H.
  congruence.
Qed.

Lemma compare_numbers_lt x y :
  (x < y)%N -> compareIdentifiers (IdNum x) (IdNum y) = (-1)%Z.
Proof.
  intros H. unfold compareIdentifiers. simpl.
  destruct (x =? y)%N eqn:E; [apply N.eqb_eq in E; lia|].
  apply N.ltb_lt in H. now rewrite H.
Qed.

Lemma comparePre_loop_zero a b :
  Forall tame_id a -> Forall tame_id b -> comparePre_loop a b = 0%Z -> a = b.
Proof.
  revert b. induction a as [|x a IH]; intros [|y b] Ta Tb; simpl;
    try discriminate; [reflexivity|].
  inversion Ta as [|? ? Tx Ta']; inversion Tb as [|? ? Ty Tb']; subst.
  destruct (Identifier_eqb x y) eqn:E.
  - apply Identifier_eqb_eq in E. subst y. intros H. f_equal. now apply IH.
  - intros H. apply (compareIdentifiers_zero x y Tx Ty) in H. subst y.
    now rewrite Identifier_eqb_refl in E.
Qed.

Lemma comparePre_zero p q :
  tame p -> tame q -> comparePre p q = 0%Z -> prerelease p = prerelease q.
Proof.
  unfold tame, comparePre. intros Tp Tq.
  pose proof (comparePre_loop_zero (prerelease p) (prerelease q) Tp Tq) as H.
  destruct (prerelease p), (prerelease q); try discriminate; auto.
Qed.

(** On tame constructed versions only equal [version] strings compare
    equal. *)
Lemma compare_fields_zero s t p q :
  SemVer_new s = Normal p -> SemVer_new t = Normal q -> tame p -> tame q ->
  compare_fields p q = 0%Z -> Semver.version p = Semver.version q.
Proof.
  intros Hp Hq Tp Tq H. unfold compare_fields in H.
  apply or_else_zero in H. destruct H as [M P].
  unfold compareMain in M. apply or_else_zero in M. destruct M as [M1 M].
  apply or_else_zero in M. destruct M as [M2 M3].
  apply compare_numbers_zero in M1, M2, M3.
  apply (comparePre_zero p q Tp Tq) in P.
  rewrite (constructed_version s p Hp), (constructed_version t q Hq).
  congruence.
Qed.

Lemma same_version_fields s t p q :
  SemVer_new s = Normal p -> SemVer_new t = Normal q ->
  Semver.version p = Semver.version q ->
  Semver.major p = Semver.major q /\ Semver.minor p = Semver.minor q /\
  Semver.patch p = Semver.patch q /\ prerelease p = prerelease q.
Proof.
  intros Hp Hq E. pose proof (reread_inj s t p q Hp Hq E) as R.
  unfold reread in R. injection R as _ R1 R2 R3 R4. auto.
Qed.

(** The [version] field of a descriptor is the canonical string followed
    by the prerelease suffix. *)
Lemma describe_version s m :
  well_formed m = true -> safe m ->
  NodeManager.version (describe (of_match s m))
  = canonical (describe (of_match s m)) ++ group "-" (m4 m).
Proof.
  intros W S. rewrite (canonical_of_match _ m W S).
  change (NodeManager.version (describe (of_match s m)))
    with ("v" ++ Semver.version (of_match s m)).
  rewrite (version_of_match_render _ m W S).
  unfold render, without_build. cbn [m1 m2 m3 m4 m5 group].
  repeat (rewrite ?append_assoc; cbn [append]). now rewrite append_nil_r.
Qed.

(** A constructed version has no prerelease identifiers exactly when the
    [version] field of its descriptor is canonical. *)
Lemma prerelease_nil_iff s p :
  SemVer_new s = Normal p ->
  (prerelease p = [] <->
   NodeManager.version (describe p) = canonical (describe p)).
Proof.
  intros H. destruct (SemVer_new_inv s p H) as (m & _ & M & S & ->).
  destruct (match_FULL_sound _ _ M) as [W _].
  rewrite (describe_version s m W S).
  change (prerelease (of_match s m)) with (prerelease_of m).
  set (c := canonical (describe (of_match s m))).
  unfold prerelease_of. destruct (m4 m) as [g|]; cbn [group].
  - split.
    + intros E. apply map_eq_nil in E. now destruct (split_nonempty "." g).
    + intros E. apply append_cancel in E. discriminate E.
  - split; [intros _; apply append_nil_r|reflexivity].
Qed.

End OrderingFacts.

Module Ordering.
Import Str StrFacts Semver Grammar SemverFacts FullFacts SemVerFacts CompareFacts SortFacts.
Import NodeManager Spec ManagerFacts OrderFacts Terms OrderingFacts.

(** X1: exchanging the arguments of [compareVersions] negates its result. *)
Theorem compareVersions_antisym a b z :
  compareVersions a b = Normal z -> compareVersions b a = Normal (- z)%Z.
Proof.
  intros H. destruct (compareVersions_inv a b z H) as (p & q & Hp & Hq & ->).
  rewrite (compareVersions_intro b a q p Hq Hp). f_equal.
  apply SemVer_compare_antisym.
Qed.

Lemma compareVersions_antisym_witness :
  compareVersions "v18.0.0" "20.1.0+x" = Normal (-1)%Z /\
  compareVersions "20.1.0+x" "v18.0.0" = Normal 1%Z.
Proof.
  split; [vm_compute; reflexivity|].
  apply (compareVersions_antisym "v18.0.0" "20.1.0+x" (-1)%Z).
  vm_compute. reflexivity.
Defined.

(** X2: [compareVersions] returns exactly when [parseVersion] accepts both
    of its arguments; otherwise it throws. *)
Theorem compareVersions_returns_iff a b :
  returns (compareVersions a b) <-> accepted a /\ accepted b.
Proof.
  rewrite !accepted_iff. unfold returns. split.
  - intros [z H]. destruct (compareVersions_inv a b z H) as (p & q & Hp & Hq & _).
    split; eexists; eassumption.
  - intros [[p Hp] [q Hq]]. exists (SemVer_compare p q).
    now apply compareVersions_intro.
Qed.

(** X3: a result of [compareVersions] is [-1], [0] or [1]. *)
Theorem compareVersions_sign a b z :
  compareVersions a b = Normal z -> (z = -1 \/ z = 0 \/ z = 1)%Z.
Proof.
  intros H. destruct (compareVersions_inv a b z H) as (p & q & _ & _ & ->).
  apply SemVer_compare_sign.
Qed.

Lemma compareVersions_sign_witness : (1 = -1 \/ 1 = 0 \/ 1 = 1)%Z.
Proof.
  apply (compareVersions_sign "v20.0.0" "v18.0.0" 1%Z). vm_compute. reflexivity.
Defined.

(** X4: comparing two strings is comparing the [version] fields of their
    descriptors: a leading "v", surrounding white space and a build suffix
    do not count. *)
Theorem compareVersions_canonical a b da db :
  parseVersion a = Normal (Some da) -> parseVersion b = Normal (Some db) ->
  compareVersions a b =
  compareVersions (NodeManager.version da) (NodeManager.version db).
Proof.
  intros Ha Hb.
  destruct (parseVersion_some a da Ha) as (p & Hp & ->).
  destruct (parseVersion_some b db Hb) as (q & Hq & ->).
  rewrite (compareVersions_intro a b p q Hp Hq).
  unfold compareVersions.
  change (replace_leading_v (NodeManager.version (describe p))) with (Semver.version p).
  change (replace_leading_v (NodeManager.version (describe q))) with (Semver.version q).
  rewrite (compare_versions _ _ _ _ Hp Hq). reflexivity.
Qed.

Lemma compareVersions_canonical_witness :
  compareVersions " v1.2.3-rc.1+build " "1.2.3" = compareVersions "v1.2.3-rc.1" "v1.2.3".
Proof.
  apply (compareVersions_canonical " v1.2.3-rc.1+build " "1.2.3"
           (mkNodeVersion "v1.2.3-rc.1" 1 2 3 None None)
           (mkNodeVersion "v1.2.3" 1 2 3 None None)); vm_compute; reflexivity.
Defined.

(** X5: for strings without a numeric prerelease identifier of
    [MAX_SAFE_INTEGER] or more, [compareVersions] answers [0] exactly when
    [parseVersion] gives both the same [version] string; equal [version]
    strings always compare [0]. *)
Theorem compareVersions_zero_iff a b da db :
  parseVersion a = Normal (Some da) -> parseVersion b = Normal (Some db) ->
  (NodeManager.version da = NodeManager.version db ->
   compareVersions a b = Normal 0%Z) /\
  (tame_name a -> tame_name b -> compareVersions a b = Normal 0%Z ->
   NodeManager.version da = NodeManager.version db).
Proof.
  intros Ha Hb.
  destruct (parseVersion_some a da Ha) as (p & Hp & ->).
  destruct (parseVersion_some b db Hb) as (q & Hq & ->).
  rewrite (compareVersions_intro a b p q Hp Hq). split.
  - simpl. intros [= E]. unfold SemVer_compare. rewrite E.
    now rewrite String.eqb_refl.
  - intros Ta Tb [= E].
    rewrite (SemVer_compare_constructed _ _ p q Hp Hq) in E.
    simpl. f_equal.
    exact (compare_fields_zero _ _ p q Hp Hq (Ta p Hp) (Tb q Hq) E).
Qed.

Lemma compareVersions_zero_iff_witness :
  compareVersions "v1.2.3+linux" " 1.2.3+darwin " = Normal 0%Z.
Proof.
  apply (proj1 (compareVersions_zero_iff "v1.2.3+linux" " 1.2.3+darwin "
                  (mkNodeVersion "v1.2.3" 1 2 3 None None)
                  (mkNodeVersion "v1.2.3" 1 2 3 None None) eq_refl eq_refl)).
  reflexivity.
Defined.

(** X6: on strings without a numeric prerelease identifier of
    [MAX_SAFE_INTEGER] or more, [compareVersions] is transitive. *)
Theorem compareVersions_trans a b c x y :
  tame_name a -> tame_name b -> tame_name c ->
  compareVersions a b = Normal x -> compareVersions b c = Normal y ->
  (x <= 0)%Z -> (y <= 0)%Z ->
  exists z, compareVersions a c = Normal z /\ (z <= 0)%Z.
Proof.
  intros Ta Tb Tc Hx Hy Lx Ly.
  destruct (compareVersions_inv a b x Hx) as (p & q & Hp & Hq & ->).
  destruct (compareVersions_inv b c y Hy) as (q' & r & Hq' & Hr & ->).
  assert (q' = q) by congruence. subst q'.
  rewrite (compareVersions_intro a c p r Hp Hr). eexists. split; [reflexivity|].
  rewrite (SemVer_compare_constructed _ _ _ _ Hp Hq) in Lx.
  rewrite (SemVer_compare_constructed _ _ _ _ Hq Hr) in Ly.
  rewrite (SemVer_compare_constructed _ _ _ _ Hp Hr).
  exact (proj2 compare_fields_consistent p q r (Ta p Hp) (Tb q Hq) (Tc r Hr) Lx Ly).
Qed.

Lemma compareVersions_trans_witness :
  exists z, compareVersions "v1.0.0-alpha" "v2.0.0" = Normal z /\ (z <= 0)%Z.
Proof.
  apply (compareVersions_trans "v1.0.0-alpha" "v1.0.0" "v2.0.0" (-1)%Z (-1)%Z);
    try (vm_compute; reflexivity); try (vm_compute; discriminate);
    intros p H; vm_compute in H; injection H as <-; repeat constructor.
Defined.

(** X7: the three numbers decide first: when those of [a] come before
    those of [b], [compareVersions a b] is [-1], whatever the prerelease
    and build suffixes. *)
Theorem compareVersions_numbers a b da db :
  parseVersion a = Normal (Some da) -> parseVersion b = Normal (Some db) ->
  lower_numbers da db -> compareVersions a b = Normal (-1)%Z.
Proof.
  intros Ha Hb.
  destruct (parseVersion_some a da Ha) as (p & Hp & ->).
  destruct (parseVersion_some b db Hb) as (q & Hq & ->).
  unfold lower_numbers. simpl. intros L.
  rewrite (compareVersions_intro a b p q Hp Hq). f_equal.
  unfold SemVer_compare.
  destruct (Semver.version q =? Semver.version p) eqn:E.
  { apply String.eqb_eq in E.
    destruct (same_version_fields _ _ q p Hq Hp E) as (E1 & E2 & E3 & _). lia. }
  unfold compareMain.
  destruct L as [L|[[E1 L]|[E1 [E2 L]]]].
  - now rewrite (compare_numbers_lt _ _ L).
  - rewrite E1, compareIdentifiers_refl, (compare_numbers_lt _ _ L). reflexivity.
  - rewrite E1, E2, !compareIdentifiers_refl, (compare_numbers_lt _ _ L).
    reflexivity.
Qed.

Lemma compareVersions_numbers_witness :
  compareVersions "v18.20.1" "v20.0.0-rc.1+build" = Normal (-1)%Z.
Proof.
  apply (compareVersions_numbers "v18.20.1" "v20.0.0-rc.1+build"
           (mkNodeVersion "v18.20.1" 18 20 1 None None)
           (mkNodeVersion "v20.0.0-rc.1" 20 0 0 None None));
    try (vm_compute; reflexivity).
  left. vm_compute. reflexivity.
Defined.

(** X8: with the same three numbers, a version with a prerelease suffix
    comes before the one without. *)
Theorem compareVersions_prerelease_first a b da db :
  parseVersion a = Normal (Some da) -> parseVersion b = Normal (Some db) ->
  same_numbers da db ->
  NodeManager.version da <> canonical da ->
  NodeManager.version db = canonical db ->
  compareVersions a b = Normal (-1)%Z.
Proof.
  intros Ha Hb.
  destruct (parseVersion_some a da Ha) as (p & Hp & ->).
  destruct (parseVersion_some b db Hb) as (q & Hq & ->).
  unfold same_numbers. simpl. intros (E1 & E2 & E3) Na Nb.
  rewrite <- (prerelease_nil_iff _ p Hp) in Na.
  rewrite <- (prerelease_nil_iff _ q Hq) in Nb.
  rewrite (compareVersions_intro a b p q Hp Hq). f_equal.
  unfold SemVer_compare.
  destruct (Semver.version q =? Semver.version p) eqn:E.
  { apply String.eqb_eq in E.
    destruct (same_version_fields _ _ q p Hq Hp E) as (_ & _ & _ & E4).
    congruence. }
  unfold compareMain, comparePre.
  rewrite E1, E2, E3, !compareIdentifiers_refl, Nb.
  destruct (prerelease p); [contradiction|reflexivity].
Qed.

Lemma compareVersions_prerelease_first_witness :
  compareVersions "v1.2.3-rc.1" "1.2.3+build" = Normal (-1)%Z.
Proof.
  apply (compareVersions_prerelease_first "v1.2.3-rc.1" "1.2.3+build"
           (mkNodeVersion "v1.2.3-rc.1" 1 2 3 None None)
           (mkNodeVersion "v1.2.3" 1 2 3 None None));
    try (vm_compute; reflexivity).
  - repeat split.
  - vm_compute. discriminate.
Defined.

End Ordering.

Module DescriptorFacts.
Import Str StrFacts Semver Grammar SemverFacts FullFacts SemVerFacts CompareFacts SortFacts.
Import NodeManager Spec ManagerFacts OrderFacts Terms OrderingFacts Discovery.

Lemma graphic_units c : is_graphic c = true -> units c = 1.
Proof. ascii_cases c. Qed.

Lemma js_length_graphic s :
  forallb is_graphic s = true -> js_length s = String.length s.
Proof.
  induction s as [|c s IH]; simpl; [reflexivity|].
  rewrite andb_true_iff. intros [H1 H2].
  now rewrite (graphic_units c H1), (IH H2).
Qed.

(** X9: the numbers of a descriptor are safe integers, and its [version]
    field is "v" followed by graphic ASCII characters only (no white
    space), at most 257 characters in all. *)
Theorem parseVersion_bounds s d :
  parseVersion s = Normal (Some d) ->
  (NodeManager.major d <= MAX_SAFE_INTEGER)%N /\
  (NodeManager.minor d <= MAX_SAFE_INTEGER)%N /\
  (NodeManager.patch d <= MAX_SAFE_INTEGER)%N /\
  startsWith "v" (NodeManager.version d) = true /\
  forallb is_graphic (NodeManager.version d) = true /\
  (String.length (NodeManager.version d) <= 257)%nat.
Proof.
  intros H. destruct (parseVersion_some s d H) as (p & Hp & ->).
  destruct (SemVer_new_inv _ p Hp) as (m & L & M & S & ->).
  destruct (match_FULL_sound _ _ M) as [W R].
  destruct S as (S1 & S2 & S3).
  split; [exact S1|]. split; [exact S2|]. split; [exact S3|].
  change (NodeManager.version (describe (of_match (replace_leading_v s) m)))
    with ("v" ++ Semver.version (of_match (replace_leading_v s) m)).
  rewrite (version_of_match_render _ m W (conj S1 (conj S2 S3))).
  pose proof (render_graphic _ (well_formed_without_build m W)) as G.
  split; [|split].
  - unfold startsWith. simpl. now destruct (render (without_build m)).
  - simpl. exact G.
  - simpl. rewrite <- (js_length_graphic _ G).
    pose proof (js_length_sound _ m R).
    pose proof (js_length_trim (replace_leading_v s)).
    unfold MAX_LENGTH in L. lia.
Qed.

Lemma parseVersion_bounds_witness :
  (9007199254740991 <= MAX_SAFE_INTEGER)%N /\
  (0 <= MAX_SAFE_INTEGER)%N /\ (1 <= MAX_SAFE_INTEGER)%N /\
  startsWith "v" "v9007199254740991.0.1-rc.1" = true /\
  forallb is_graphic "v9007199254740991.0.1-rc.1" = true /\
  (String.length "v9007199254740991.0.1-rc.1" <= 257)%nat.
Proof.
  apply (parseVersion_bounds " 9007199254740991.0.1-rc.1+b "
           (mkNodeVersion "v9007199254740991.0.1-rc.1" 9007199254740991 0 1 None None)).
  vm_compute. reflexivity.
Defined.

Lemma describe_reparse s p :
  SemVer_new s = Normal p ->
  parseVersion (NodeManager.version (describe p)) = Normal (Some (describe p)).
Proof.
  intros Hp. unfold parseVersion, parse.
  change (replace_leading_v (NodeManager.version (describe p)))
    with (Semver.version p).
  rewrite (SemVer_new_version _ p Hp). reflexivity.
Qed.

End DescriptorFacts.

Module DiscoveryMore.
Import Str StrFacts Semver Grammar SemverFacts FullFacts SemVerFacts CompareFacts SortFacts.
Import NodeManager Spec ManagerFacts OrderFacts Terms OrderingFacts Discovery DescriptorFacts.

(** What a returned entry was made from. *)
Lemma getInstalledVersions_origin h config l v :
  snd (getInstalledVersions h config) = Normal l -> In v l ->
  exists entries entry d,
    get (installDir config) = Some d /\
    fs_readdir h (Some d) = Normal entries /\
    In entry entries /\ candidate entry = true /\
    parseVersion (name entry) = Normal (Some (info v)) /\
    path v = path_join h [d; name entry] /\
    current v = isCurrent (currentEnv h) entry.
Proof.
  intros H Hin. destruct (getInstalledVersions_inv h config l H)
    as [->|(entries & R & Perm)]; [destruct Hin|].
  apply (Permutation_in _ (Permutation_sym Perm)) in Hin.
  destruct (produced_inv _ _ _ _ _ Hin) as (entry & d & He & Hd & Hv).
  exists entries, entry, d. rewrite Hd in R.
  split; [assumption|]. split; [assumption|]. split; [assumption|].
  unfold discovered in Hv. destruct (candidate entry); [|destruct Hv].
  split; [reflexivity|].
  destruct (parseVersion (name entry)) as [[i|]|];
    [|contradiction Hv|contradiction Hv].
  destruct Hv as [<-|[]]. simpl. auto.
Qed.

(** X10: the [version] of every returned entry parses to the entry's own
    descriptor: what [getInstalledVersions] returns can be fed back to
    [parseVersion], [compareVersions] and [isVersionInstalled]. *)
Theorem getInstalledVersions_reparse h config l v :
  snd (getInstalledVersions h config) = Normal l -> In v l ->
  parseVersion (NodeManager.version (info v)) = Normal (Some (info v)).
Proof.
  intros H Hin.
  destruct (getInstalledVersions_origin h config l v H Hin)
    as (_ & entry & _ & _ & _ & _ & _ & P & _).
  destruct (parseVersion_some _ _ P) as (p & Hp & ->).
  exact (describe_reparse _ p Hp).
Qed.

(** X11: the [path] of every returned entry is [getVersionPath] of the
    name of the directory it was found in; it is [getVersionPath] of the
    entry's [version] when that directory is named by its canonical
    version. *)
Theorem getInstalledVersions_path h config l v :
  snd (getInstalledVersions h config) = Normal l -> In v l ->
  exists entries entry,
    fs_readdir h (get (installDir config)) = Normal entries /\
    In entry entries /\
    parseVersion (name entry) = Normal (Some (info v)) /\
    getVersionPath h config (name entry) = Normal (path v) /\
    (name entry = NodeManager.version (info v) ->
     getVersionPath h config (NodeManager.version (info v)) = Normal (path v)).
Proof.
  intros H Hin.
  destruct (getInstalledVersions_origin h config l v H Hin)
    as (entries & entry & d & Hd & R & He & _ & P & Hp & _).
  exists entries, entry. rewrite Hd.
  split; [assumption|]. split; [assumption|]. split; [assumption|].
  assert (G : getVersionPath h config (name entry) = Normal (path v)).
  { unfold getVersionPath, path_join_call. rewrite Hd. simpl. now rewrite Hp. }
  split; [exact G|]. intros <-. exact G.
Qed.

(** The call on a directory that exists and can be listed. *)
Lemma getInstalledVersions_listing h config d entries :
  get (installDir config) = Some d ->
  fs_pathExists h (Some d) = Normal true ->
  fs_readdir h (Some d) = Normal entries ->
  exists l, getInstalledVersions h config = ([], Normal l) /\
            Permutation (flat_map (discovered h d (currentEnv h)) entries) l.
Proof.
  intros Hd He Hr. unfold getInstalledVersions, getInstalledVersions_try.
  rewrite Hd, He. simpl. rewrite Hr. simpl. fold (currentEnv h).
  rewrite scan_some. simpl.
  destruct (sort_sorted comparator parsed comparator_total
              (flat_map (discovered h d (currentEnv h)) entries))
    as (l & Hl & Perm & _).
  { rewrite Forall_forall. intros v Hv. apply in_flat_map in Hv.
    destruct Hv as (entry & _ & Hv).
    destruct (discovered_inv _ _ _ _ _ Hv) as (s & p & Hp & Hi & _).
    now exists s, p. }
  fold comparator. rewrite Hl. now exists l.
Qed.

(** X12: on a directory that exists and can be listed,
    [isVersionInstalled(s)] is [true] exactly when some child that is a
    directory with a name starting with "v" parses to a descriptor whose
    [version] is [s]; the child's own name need not be [s]. *)
Theorem isVersionInstalled_iff h config d entries s :
  get (installDir config) = Some d ->
  fs_pathExists h (Some d) = Normal true ->
  fs_readdir h (Some d) = Normal entries ->
  exists b, isVersionInstalled h config s = ([], Normal b) /\
            (b = true <->
             exists entry dsc, In entry entries /\ candidate entry = true /\
                               parseVersion (name entry) = Normal (Some dsc) /\
                               NodeManager.version dsc = s).
Proof.
  intros Hd He Hr.
  destruct (getInstalledVersions_listing h config d entries Hd He Hr)
    as (l & Hl & Perm).
  exists (List.existsb (fun v => (NodeManager.version (info v) =? s)%string) l).
  split.
  { unfold isVersionInstalled. rewrite Hl. reflexivity. }
  rewrite existsb_exists. split.
  - intros (v & Hv & E). apply String.eqb_eq in E.
    assert (Hs : snd (getInstalledVersions h config) = Normal l) by now rewrite Hl.
    destruct (getInstalledVersions_origin h config l v Hs Hv)
      as (entries' & entry & d' & Hd' & R & Hin & C & P & _).
    assert (d' = d) by congruence. subst d'.
    assert (entries' = entries) by congruence. subst entries'.
    now exists entry, (info v).
  - intros (entry & dsc & Hin & C & P & E).
    exists {| info := dsc; path := path_join h [d; name entry];
              current := isCurrent (currentEnv h) entry; default := false |}.
    split; [|simpl; now apply String.eqb_eq].
    apply (Permutation_in _ Perm). apply in_flat_map. exists entry.
    split; [assumption|]. unfold discovered. rewrite C, P. now left.
Qed.

(** X13: an entry flagged [current] describes the active Node: the
    environment query succeeded, its [nodeVersion] is what
    [getCurrentNodeVersion] returns, and it parses to the entry's
    descriptor. *)
Theorem getInstalledVersions_current h config l v :
  snd (getInstalledVersions h config) = Normal l -> In v l -> current v = true ->
  exists env, getCurrentEnvironment h = Normal env /\
              getCurrentNodeVersion h = Normal (nodeVersion env) /\
              parseVersion (nodeVersion env) = Normal (Some (info v)) /\
              getVersionPath h config (nodeVersion env) = Normal (path v).
Proof.
  intros H Hin C.
  destruct (getInstalledVersions_origin h config l v H Hin)
    as (entries & entry & d & Hd & _ & _ & _ & P & Hp & Hc).
  rewrite C in Hc. unfold currentEnv, isCurrent in Hc.
  destruct (getCurrentEnvironment h) as [env|] eqn:E; [|discriminate].
  symmetry in Hc. apply String.eqb_eq in Hc.
  exists env. split; [reflexivity|]. rewrite Hc.
  split; [|split; [assumption|]].
  - unfold getCurrentEnvironment in E. unfold getCurrentNodeVersion.
    destruct (execa h "node" ["--version"] false) as [v0|]; [|discriminate].
    simpl in *.
    destruct (execa h "npm" ["--version"] false); [|discriminate]. simpl in E.
    destruct (try_catch (execa h "which" ["node"] true) _); [|discriminate].
    simpl in E.
    destruct (try_catch (execa h "which" ["npm"] true) _); [|discriminate].
    simpl in E. injection E as <-. simpl in Hc. now rewrite Hc.
  - unfold getVersionPath, path_join_call. rewrite Hd. simpl. now rewrite Hp.
Qed.

(** X14: the [verbose] flag only decides what is written to the console:
    the returned list depends on the configuration through [installDir]
    alone, nothing is written unless [verbose] is set, and something is
    written only when the call gave up and returned the empty list. *)
Theorem getInstalledVersions_verbose h c1 c2 :
  get (installDir c1) = get (installDir c2) ->
  snd (getInstalledVersions h c1) = snd (getInstalledVersions h c2) /\
  (truthy (get (verbose c1)) = false -> fst (getInstalledVersions h c1) = []) /\
  (fst (getInstalledVersions h c1) <> [] ->
   snd (getInstalledVersions h c1) = Normal []).
Proof.
  intros E.
  assert (T : getInstalledVersions_try h c1 = getInstalledVersions_try h c2).
  { unfold getInstalledVersions_try. now rewrite E. }
  unfold getInstalledVersions. rewrite <- T.
  destruct (getInstalledVersions_try h c1); simpl.
  - repeat split; congruence.
  - repeat split. intros ->. reflexivity.
Qed.

End DiscoveryMore.

Module TrimFacts.
Import Str StrFacts Terms.

Lemma string_length_app a b : String.length (a ++ b) = String.length a + String.length b.
Proof. induction a as [|c a IH]; simpl; [reflexivity|now rewrite IH]. Qed.

Lemma length_rev s : String.length (rev s) = String.length s.
Proof.
  induction s as [|c s IH]; [reflexivity|].
  rewrite rev_cons, string_length_app, IH. simpl. lia.
Qed.

Lemma drop_prefix_app p x r b :
  drop_prefix p x = Some r -> drop_prefix p (x ++ b) = Some (r ++ b).
Proof.
  revert x. induction p as [|a p IH]; intros x; simpl.
  - now intros [= ->].
  - destruct x as [|c x]; [discriminate|]. simpl.
    destruct (Ascii.eqb a c); [apply IH|discriminate].
Qed.

Lemma drop_any_app ps x r b :
  drop_any ps x = Some r -> drop_any ps (x ++ b) <> None.
Proof.
  induction ps as [|p ps IH]; simpl; [discriminate|].
  destruct (drop_prefix p x) as [r'|] eqn:E.
  - intros _. now rewrite (drop_prefix_app _ _ _ b E).
  - intros H. destruct (drop_prefix p (x ++ b)); [discriminate|now apply IH].
Qed.

Lemma drop_any_prefix ps x b : drop_any ps (x ++ b) = None -> drop_any ps x = None.
Proof.
  intros H. destruct (drop_any ps x) as [r|] eqn:E; [|reflexivity].
  now destruct (drop_any_app ps x r b E).
Qed.

Lemma drop_prefix_shorter p s r :
  nonempty p = true -> drop_prefix p s = Some r -> String.length r < String.length s.
Proof.
  intros N H. apply drop_prefix_some in H. subst s.
  destruct p; [discriminate|]. rewrite string_length_app. simpl. lia.
Qed.

Lemma drop_any_shorter ps s r :
  List.forallb nonempty ps = true -> drop_any ps s = Some r ->
  String.length r < String.length s.
Proof.
  induction ps as [|p ps IH]; simpl; [discriminate|].
  rewrite andb_true_iff. intros [N1 N2].
  destruct (drop_prefix p s) as [r'|] eqn:E.
  - intros [= <-]. now apply (drop_prefix_shorter p).
  - now apply IH.
Qed.

Lemma drop_any_nil ps : List.forallb nonempty ps = true -> drop_any ps "" = None.
Proof.
  induction ps as [|p ps IH]; simpl; [reflexivity|].
  rewrite andb_true_iff. intros [N1 N2]. destruct p; [discriminate|]. simpl. auto.
Qed.

(** With enough fuel [strip] leaves nothing to drop. *)
Lemma strip_done ps fuel s :
  List.forallb nonempty ps = true -> String.length s <= fuel ->
  drop_any ps (strip ps fuel s) = None.
Proof.
  intros N. revert s. induction fuel as [|fuel IH]; intros s L; simpl.
  - destruct s; [now apply drop_any_nil|simpl in L; lia].
  - destruct (drop_any ps s) as [r|] eqn:E; [|exact E].
    apply IH. pose proof (drop_any_shorter ps s r N E). lia.
Qed.

Lemma strip_fixed ps fuel s : drop_any ps s = None -> strip ps fuel s = s.
Proof. intros H. destruct fuel; simpl; [reflexivity|now rewrite H]. Qed.

Lemma whitespace_nonempty :
  List.forallb nonempty whitespace = true /\
  List.forallb nonempty (map rev whitespace) = true.
Proof. split; vm_compute; reflexivity. Qed.

(** [trim] is idempotent. *)
Lemma trim_trim s : trim (trim s) = trim s.
Proof.
  destruct whitespace_nonempty as [N1 N2].
  unfold trim at 2. set (t := trimStart s).
  assert (Ct : drop_any whitespace t = None).
  { apply strip_done; [assumption|]. apply Nat.le_refl. }
  unfold trimEnd. set (u := strip (map rev whitespace) (String.length t) (rev t)).
  assert (Cu : drop_any (map rev whitespace) u = None).
  { apply strip_done; [assumption|]. rewrite length_rev. apply Nat.le_refl. }
  assert (Cr : drop_any whitespace (rev u) = None).
  { destruct (strip_suffix (map rev whitespace) (String.length t) (rev t)) as [a Ha].
    fold u in Ha. apply (drop_any_prefix whitespace (rev u) (rev a)).
    rewrite <- rev_app, <- Ha, rev_involutive. exact Ct. }
  unfold trim, trimStart. rewrite (strip_fixed _ _ _ Cr).
  unfold trimEnd. rewrite rev_involutive, (strip_fixed _ _ _ Cu). reflexivity.
Qed.

(** The characters of [trim s] are characters of [s]. *)
Lemma forallb_trim f s : forallb f s = true -> forallb f (trim s) = true.
Proof.
  destruct (trim_infix s) as (a & b & H). intros F. rewrite H in F.
  rewrite !forallb_app, !andb_true_iff in F. tauto.
Qed.

Lemma split_head sep s :
  exists w ws, split sep s = w :: ws /\ forallb (differs sep) w = true.
Proof.
  induction s as [|c s (w & ws & E & F)]; simpl.
  - now exists "", [].
  - destruct (Ascii.eqb c sep) eqn:C.
    + now exists "", (split sep s).
    + rewrite E. exists (String c w), ws. split; [reflexivity|].
      simpl. unfold differs at 1. now rewrite C.
Qed.

End TrimFacts.

Module Probes.
Import Str StrFacts Semver Grammar SemverFacts FullFacts SemVerFacts CompareFacts SortFacts.
Import NodeManager Spec ManagerFacts OrderFacts Terms OrderingFacts Discovery DescriptorFacts.
Import TrimFacts SemverRange.

Lemma first_line_single s : forallb (differs line_feed) (first_line s) = true.
Proof.
  unfold first_line. destruct (split_head line_feed s) as (w & ws & E & F).
  unfold line_feed in *. now rewrite E.
Qed.

(** X15: the strings of a snapshot are trimmed, and each path is a single
    line. *)
Theorem getCurrentEnvironment_trimmed h env :
  getCurrentEnvironment h = Normal env ->
  trimmed (nodeVersion env) /\ trimmed (npmVersion env) /\
  trimmed (nodePath env) /\ trimmed (npmPath env) /\
  forallb (differs line_feed) (nodePath env) = true /\
  forallb (differs line_feed) (npmPath env) = true.
Proof.
  unfold getCurrentEnvironment, trimmed.
  destruct (execa h "node" ["--version"] false) as [v|]; [|discriminate].
  destruct (execa h "npm" ["--version"] false) as [n|]; [|discriminate].
  simpl.
  destruct (try_catch (execa h "which" ["node"] true) _) as [p|]; [|discriminate].
  destruct (try_catch (execa h "which" ["npm"] true) _) as [q|]; [|discriminate].
  simpl. intros [= <-]. simpl.
  repeat split; try apply trim_trim; apply forallb_trim, first_line_single.
Qed.

(** X16: when [getCurrentEnvironment] returns, [getCurrentNodeVersion]
    returns its [nodeVersion] and [isNodeInstalled] returns [true]. *)
Theorem getCurrentEnvironment_node h env :
  getCurrentEnvironment h = Normal env ->
  getCurrentNodeVersion h = Normal (nodeVersion env) /\
  isNodeInstalled h = Normal true.
Proof.
  unfold getCurrentEnvironment, getCurrentNodeVersion, isNodeInstalled.
  destruct (execa h "node" ["--version"] false) as [v|]; [|discriminate].
  destruct (execa h "npm" ["--version"] false) as [n|]; [|discriminate].
  simpl.
  destruct (try_catch (execa h "which" ["node"] true) _) as [p|]; [|discriminate].
  destruct (try_catch (execa h "which" ["npm"] true) _) as [q|]; [|discriminate].
  simpl. intros [= <-]. split; reflexivity.
Qed.

(** X17: [isNodeInstalled] never throws; it returns [true] exactly when
    [getCurrentNodeVersion] returns, and then that version is trimmed. *)
Theorem isNodeInstalled_iff h :
  exists b, isNodeInstalled h = Normal b /\
            (b = true <-> returns (getCurrentNodeVersion h)) /\
            (forall v, getCurrentNodeVersion h = Normal v -> trimmed v) /\
            (forall e, getCurrentNodeVersion h = Throw e ->
                       exists cause,
                         execa h "node" ["--version"] false = Throw cause /\
                         e = Error ("Failed to get Node version: "
                                    ++ Error_toString cause)).
Proof.
  unfold isNodeInstalled, getCurrentNodeVersion, returns, trimmed.
  destruct (execa h "node" ["--version"] false) as [v|cause]; simpl.
  - exists true. split; [reflexivity|]. split; [|split].
    + split; [eexists; reflexivity|reflexivity].
    + intros w [= <-]. apply trim_trim.
    + discriminate.
  - exists false. split; [reflexivity|]. split; [|split].
    + split; [discriminate|intros [a H]; discriminate H].
    + discriminate.
    + intros e [= <-]. now exists cause.
Qed.

(** X18: [validateInstallation] never throws; it returns [true] exactly
    when the executable of the platform exists under the directory, runs,
    and prints something that starts with "v" once trimmed. *)
Theorem validateInstallation_iff h versionPath :
  exists b, validateInstallation h versionPath = Normal b /\
            (b = true <->
             fs_pathExists h (Some (node_binary h versionPath)) = Normal true /\
             exists out,
               execa h (node_binary h versionPath) ["--version"] false = Normal out /\
               startsWith "v" (trim out) = true).
Proof.
  unfold validateInstallation. fold (node_binary h versionPath).
  destruct (fs_pathExists h (Some (node_binary h versionPath))) as [[|]|]; simpl.
  - destruct (execa h (node_binary h versionPath) ["--version"] false) as [out|];
      simpl.
    + eexists. split; [reflexivity|]. split.
      * intros E. split; [reflexivity|]. now exists out.
      * intros (_ & out' & [= <-] & E). exact E.
    + exists false. split; [reflexivity|]. split; [discriminate|].
      intros (_ & out & H & _). discriminate H.
  - exists false. split; [reflexivity|]. split; [discriminate|].
    intros (H & _). discriminate H.
  - exists false. split; [reflexivity|]. split; [discriminate|].
    intros (H & _). discriminate H.
Qed.

(** X19: [satisfiesVersion] never throws, whatever the range engine; it
    answers [true] only for a version [parseVersion] accepts and a range
    the engine can construct, so a malformed version satisfies nothing. *)
Theorem satisfiesVersion_sound E version_ range :
  exists b, satisfiesVersion E version_ range = Normal b /\
            (b = true -> accepted version_ /\ returns (Range_new E range)) /\
            (~ accepted version_ -> b = false).
Proof.
  unfold satisfiesVersion, satisfies, Range_test.
  assert (A : forall p, SemVer_new (replace_leading_v version_) = Normal p ->
                        accepted version_).
  { intros p Hp. apply accepted_iff. now exists p. }
  destruct (Range_new E range) as [r|]; simpl.
  - destruct (replace_leading_v version_ =? "")%string.
    + exists false. split; [reflexivity|]. split; [discriminate|reflexivity].
    + destruct (SemVer_new (replace_leading_v version_)) as [p|] eqn:Hp.
      * eexists. split; [reflexivity|]. split.
        -- intros _. split; [now apply (A p)|now exists r].
        -- intros N. destruct N. now apply (A p).
      * exists false. split; [reflexivity|]. split; [discriminate|reflexivity].
  - exists false. split; [reflexivity|]. split; [discriminate|reflexivity].
Qed.

(** X20: the recommended version is a bare major number, not a version:
    [parseVersion] rejects it, [compareVersions] throws on it and no host
    has it installed. *)
Theorem getRecommendedNodeVersion_not_a_version h config other :
  parseVersion getRecommendedNodeVersion = Normal None /\
  compareVersions getRecommendedNodeVersion other
    = Throw (TypeError "Invalid Version: 20") /\
  snd (isVersionInstalled h config getRecommendedNodeVersion) = Normal false.
Proof.
  split; [vm_compute; reflexivity|]. split; [vm_compute; reflexivity|].
  unfold isVersionInstalled.
  destruct (getInstalledVersions h config) as [out r] eqn:G. simpl.
  destruct (getInstalledVersions_returns h config) as [l Hl].
  rewrite G in Hl. simpl in Hl. subst r. simpl. f_equal.
  apply not_true_is_false. rewrite existsb_exists. intros (v & Hv & E).
  apply String.eqb_eq in E.
  assert (Hs : snd (getInstalledVersions h config) = Normal l) by now rewrite G.
  destruct (DiscoveryMore.getInstalledVersions_origin h config l v Hs Hv)
    as (_ & entry & _ & _ & _ & _ & _ & P & _).
  destruct (parseVersion_some _ _ P) as (p & _ & I).
  rewrite I in E. discriminate E.
Qed.

(** X21: [getVersionPath] on a constructed manager throws, with a
    [TypeError], exactly when the constructor was given an [installDir]
    property without a value; otherwise it returns the joined path. *)
Theorem getVersionPath_constructed h arg v :
  (valueless_installDir arg ->
   exists e, getVersionPath h (constructor h arg) v = Throw e /\
             error_name e = "TypeError") /\
  (~ valueless_installDir arg ->
   exists d, get (installDir (constructor h arg)) = Some d /\
             getVersionPath h (constructor h arg) v = Normal (path_join h [d; v])).
Proof.
  unfold valueless_installDir, getVersionPath, path_join_call. split.
  - intros (c & -> & E). simpl. rewrite E. simpl. eexists. split; reflexivity.
  - intros N. destruct arg as [c|]; simpl.
    + destruct (installDir c) as [|[d|]] eqn:E; simpl.
      * eexists. split; reflexivity.
      * exists d. split; reflexivity.
      * destruct N. now exists c.
    + eexists. split; reflexivity.
Qed.

(** X22: constructing a manager from the configuration of a constructed
    manager changes nothing. *)
Theorem constructor_idempotent h arg :
  constructor h (Some (constructor h arg)) = constructor h arg.
Proof.
  destruct arg as [[i m p v]|]; simpl; [|reflexivity].
  destruct i as [|[?|]], m as [|[?|]], v as [|[?|]], p as [|?]; reflexivity.
Qed.

End Probes.

Module Witnesses.
Import Str Semver Grammar NodeManager Spec Terms Sample Fixtures.
Import DiscoveryMore Probes.

Lemma getInstalledVersions_reparse_witness :
  parseVersion "v20.0.0" = Normal (Some (info v20)).
Proof.
  apply (getInstalledVersions_reparse posix quiet [v20; v18] v20).
  - vm_compute. reflexivity.
  - left. reflexivity.
Defined.

Lemma getInstalledVersions_path_witness :
  exists entries entry,
    fs_readdir posix (get (installDir quiet)) = Normal entries /\
    In entry entries /\
    parseVersion (name entry) = Normal (Some (info v18)) /\
    getVersionPath posix quiet (name entry) = Normal (path v18) /\
    (name entry = NodeManager.version (info v18) ->
     getVersionPath posix quiet (NodeManager.version (info v18)) = Normal (path v18)).
Proof.
  apply (getInstalledVersions_path posix quiet [v20; v18] v18).
  - vm_compute. reflexivity.
  - right. left. reflexivity.
Defined.

Lemma isVersionInstalled_iff_witness :
  exists b, isVersionInstalled posix quiet "v18.0.0" = ([], Normal b) /\
            (b = true <->
             exists entry dsc, In entry children /\ candidate entry = true /\
                               parseVersion (name entry) = Normal (Some dsc) /\
                               NodeManager.version dsc = "v18.0.0").
Proof.
  apply (isVersionInstalled_iff posix quiet "/home/user/.ldesign/node" children);
    reflexivity.
Defined.

Lemma getInstalledVersions_current_witness :
  exists env, getCurrentEnvironment posix = Normal env /\
              getCurrentNodeVersion posix = Normal (nodeVersion env) /\
              parseVersion (nodeVersion env) = Normal (Some (info v20)) /\
              getVersionPath posix quiet (nodeVersion env) = Normal (path v20).
Proof.
  apply (getInstalledVersions_current posix quiet [v20; v18] v20).
  - vm_compute. reflexivity.
  - left. reflexivity.
  - reflexivity.
Defined.

Lemma getInstalledVersions_verbose_witness :
  snd (getInstalledVersions unreadable quiet) = snd (getInstalledVersions unreadable loud) /\
  (truthy (get (verbose quiet)) = false -> fst (getInstalledVersions unreadable quiet) = []) /\
  (fst (getInstalledVersions unreadable quiet) <> [] ->
   snd (getInstalledVersions unreadable quiet) = Normal []).
Proof.
  apply (getInstalledVersions_verbose unreadable quiet loud). reflexivity.
Defined.

Lemma getCurrentEnvironment_trimmed_witness :
  trimmed "v20.0.0" /\ trimmed "10.1.0" /\
  trimmed "/usr/bin/node" /\ trimmed "/usr/bin/npm" /\
  forallb (differs line_feed) "/usr/bin/node" = true /\
  forallb (differs line_feed) "/usr/bin/npm" = true.
Proof.
  apply (getCurrentEnvironment_trimmed posix posix_env). vm_compute. reflexivity.
Defined.

Lemma getCurrentEnvironment_node_witness :
  getCurrentNodeVersion posix = Normal "v20.0.0" /\
  isNodeInstalled posix = Normal true.
Proof.
  apply (getCurrentEnvironment_node posix posix_env). vm_compute. reflexivity.
Defined.

End Witnesses.

Module BestEffort.
Import Str StrFacts Semver Grammar SemverFacts FullFacts SemVerFacts CompareFacts SortFacts.
Import NodeManager Spec ManagerFacts OrderFacts Terms OrderingFacts Discovery DescriptorFacts.
Import DiscoveryMore.

Section SortMap.
Context {A : Type} (cmp : A -> A -> Completion Z) (f : A -> A).
Hypothesis cmp_f : forall a b, cmp (f a) (f b) = cmp a b.

Lemma insert_map x l :
  insert cmp (f x) (map f l) = (l' <- insert cmp x l ;; Normal (map f l')).
Proof.
  induction l as [|y t IH]; simpl; [reflexivity|].
  rewrite cmp_f. destruct (cmp x y) as [c|]; simpl; [|reflexivity].
  destruct (c <=? 0)%Z; [reflexivity|].
  rewrite IH. destruct (insert cmp x t); reflexivity.
Qed.

Lemma sort_map l :
  sort cmp (map f l) = (l' <- sort cmp l ;; Normal (map f l')).
Proof.
  induction l as [|x t IH]; simpl; [reflexivity|].
  rewrite IH. destruct (sort cmp t) as [t'|]; simpl; [|reflexivity].
  apply insert_map.
Qed.
End SortMap.

Lemma comparator_unflagged a b :
  comparator (unflagged a) (unflagged b) = comparator a b.
Proof. reflexivity. Qed.

Lemma scan_unflagged h1 h2 dir env1 env2 entries acc1 acc2 :
  (forall parts, path_join h1 parts = path_join h2 parts) ->
  map unflagged acc1 = map unflagged acc2 ->
  unflagged_all (scan h1 dir env1 entries acc1)
  = unflagged_all (scan h2 dir env2 entries acc2).
Proof.
  intros J. revert acc1 acc2.
  induction entries as [|entry rest IH]; intros acc1 acc2 E; simpl.
  - now rewrite E.
  - destruct (isDirectory entry && startsWith "v" (name entry)); [|now apply IH].
    destruct (parseVersion (name entry)) as [[i|]|]; simpl;
      [|now apply IH|reflexivity].
    unfold path_join_call. destruct dir as [d|]; simpl; [|reflexivity].
    apply IH. rewrite !map_app, E, J. reflexivity.
Qed.

(** X24: the environment query only sets the [current] flags: two hosts
    with the same file system return the same entries in the same order,
    whatever their [node], [npm], [which] and [where] do. *)
Theorem getInstalledVersions_best_effort h1 h2 config :
  same_files h1 h2 ->
  unflagged_all (snd (getInstalledVersions h1 config))
  = unflagged_all (snd (getInstalledVersions h2 config)).
Proof.
  intros (J & X & R).
  assert (T : unflagged_all (getInstalledVersions_try h1 config)
              = unflagged_all (getInstalledVersions_try h2 config)).
  { unfold getInstalledVersions_try. rewrite X, R.
    destruct (fs_pathExists h2 (get (installDir config))) as [[|]|]; simpl;
      try reflexivity.
    destruct (fs_readdir h2 (get (installDir config))) as [entries|]; simpl;
      [|reflexivity].
    pose proof (scan_unflagged h1 h2 (get (installDir config))
                  (currentEnv h1) (currentEnv h2) entries [] [] J eq_refl) as S.
    fold (currentEnv h1). fold (currentEnv h2). fold comparator.
    destruct (scan h1 _ (currentEnv h1) entries []) as [l1|e1],
             (scan h2 _ (currentEnv h2) entries []) as [l2|e2];
      simpl in S |- *; try discriminate S.
    - injection S as S.
      pose proof (sort_map comparator unflagged comparator_unflagged l1) as S1.
      pose proof (sort_map comparator unflagged comparator_unflagged l2) as S2.
      unfold unflagged_all. rewrite <- S1, <- S2, S. reflexivity.
    - exact S. }
  unfold getInstalledVersions.
  destruct (getInstalledVersions_try h1 config) as [l1|],
           (getInstalledVersions_try h2 config) as [l2|]; simpl in T |- *;
    try discriminate T; try reflexivity; try exact T.
Qed.

Lemma getInstalledVersions_best_effort_witness :
  unflagged_all (snd (getInstalledVersions Sample.posix Fixtures.quiet))
  = unflagged_all (snd (getInstalledVersions Sample.no_node Fixtures.quiet)).
Proof.
  apply (getInstalledVersions_best_effort Sample.posix Sample.no_node Fixtures.quiet).
  repeat split.
Defined.

(** X23: when the directory of the active Node version is listed under the
    very string [node --version] prints, the entry made from it is flagged
    [current]; with distinct names it is the only one. *)
Theorem getInstalledVersions_current_exists h config d entries env entry dsc :
  get (installDir config) = Some d ->
  fs_pathExists h (Some d) = Normal true ->
  fs_readdir h (Some d) = Normal entries ->
  getCurrentEnvironment h = Normal env ->
  In entry entries -> candidate entry = true ->
  name entry = nodeVersion env ->
  parseVersion (name entry) = Normal (Some dsc) ->
  exists l v, getInstalledVersions h config = ([], Normal l) /\
              In v l /\ current v = true /\ info v = dsc /\
              (NoDup (map name entries) -> length (filter current l) = 1).
Proof.
  intros Hd He Hr Henv Hin C N P.
  destruct (getInstalledVersions_listing h config d entries Hd He Hr)
    as (l & Hl & Perm).
  set (v := {| info := dsc; path := path_join h [d; name entry];
               current := true; default := false |}).
  assert (Cur : isCurrent (currentEnv h) entry = true).
  { unfold currentEnv. rewrite Henv. simpl. rewrite N. apply String.eqb_refl. }
  assert (Hv : In v l).
  { apply (Permutation_in _ Perm). apply in_flat_map. exists entry.
    split; [assumption|]. unfold discovered. rewrite C, P, Cur. now left. }
  exists l, v. repeat split; try assumption; try reflexivity.
  intros ND.
  assert (U : length (filter current l) <= 1).
  { rewrite <- (Installed.filter_length_perm current _ _ Perm).
    pose proof (Installed.current_count h (Some d) (currentEnv h) entries) as H1.
    pose proof (Installed.isCurrent_distinct (currentEnv h) entries ND).
    change (produced h (Some d) (currentEnv h))
      with (discovered h d (currentEnv h)) in H1.
    lia. }
  assert (L : In v (filter current l)) by (apply filter_In; now split).
  destruct (filter current l); [destruct L|simpl in *; lia].
Qed.

Lemma getInstalledVersions_current_exists_witness :
  exists l v, getInstalledVersions Sample.posix Fixtures.quiet = ([], Normal l) /\
              In v l /\ current v = true /\ info v = info Sample.v20 /\
              (NoDup (map name Sample.children) -> length (filter current l) = 1).
Proof.
  apply (getInstalledVersions_current_exists Sample.posix Fixtures.quiet
           "/home/user/.ldesign/node" Sample.children Fixtures.posix_env
           (mkDirent "v20.0.0" true) (info Sample.v20));
    try reflexivity.
  right. left. reflexivity.
Defined.

End BestEffort.

(* ================================================================== *)
(** * Worked examples *)

Module Examples.
Import NodeManager.

Example trim_unicode :
  Str.trim (Str.of_codes [194; 160; 9]%N ++ "v20.1.0 " ++ Str.of_codes [226; 128; 169]%N)
  = "v20.1.0".
Proof. vm_compute. reflexivity. Qed.

Example parse_plain :
  Semver.parse "1.2.3" = Normal (Some (Semver.mkSemVer "1.2.3" 1 2 3 [] [] "1.2.3")).
Proof. vm_compute. reflexivity. Qed.

Example parse_prerelease_build :
  Semver.parse " v1.2.3-beta.1+x.y " =
  Normal (Some (Semver.mkSemVer " v1.2.3-beta.1+x.y " 1 2 3
                  [Semver.IdStr "beta"; Semver.IdNum 1] ["x"; "y"] "1.2.3-beta.1")).
Proof. vm_compute. reflexivity. Qed.

Example parse_rejects :
  Semver.parse "not-a-version" = Normal None /\
  Semver.parse "01.2.3" = Normal None /\
  Semver.parse "1.2" = Normal None /\
  Semver.parse "1.2.3-" = Normal None /\
  Semver.parse "1.2.3-01" = Normal None /\
  Semver.parse "1.2.9007199254740992" = Normal None.
Proof. vm_compute. repeat split; reflexivity. Qed.

Example parseVersion_examples :
  parseVersion "v20.11.1" = Normal (Some (mkNodeVersion "v20.11.1" 20 11 1 None None)) /\
  parseVersion "20.11.1" = Normal (Some (mkNodeVersion "v20.11.1" 20 11 1 None None)) /\
  parseVersion "vv20.11.1" = Normal (Some (mkNodeVersion "v20.11.1" 20 11 1 None None)) /\
  parseVersion "v20.11.1+build" = Normal (Some (mkNodeVersion "v20.11.1" 20 11 1 None None)) /\
  parseVersion "not-a-version" = Normal None.
Proof. vm_compute. repeat split; reflexivity. Qed.

Example compareVersions_examples :
  compareVersions "v18.0.0" "v20.0.0" = Normal (-1)%Z /\
  compareVersions "v20.0.0" "v18.0.0" = Normal 1%Z /\
  compareVersions "v1.2.3" "v1.2.3" = Normal 0%Z /\
  compareVersions "v1.0.0-alpha" "v1.0.0" = Normal (-1)%Z /\
  compareVersions "v1.0.0-alpha.1" "v1.0.0-alpha.beta" = Normal (-1)%Z /\
  compareVersions "v1.0.0+a" "v1.0.0+b" = Normal 0%Z.
Proof. vm_compute. repeat split; reflexivity. Qed.

(** Beyond [MAX_SAFE_INTEGER] the comparator is not transitive. *)
Example compareVersions_large_identifiers :
  compareVersions "v1.0.0-9007199254740993.b" "v1.0.0-9007199254740992.b" = Normal 0%Z /\
  compareVersions "v1.0.0-9007199254740992.b" "v1.0.0-9007199254740993.a" = Normal 0%Z /\
  compareVersions "v1.0.0-9007199254740993.b" "v1.0.0-9007199254740993.a" = Normal 1%Z.
Proof. vm_compute. repeat split; reflexivity. Qed.

Example compareVersions_malformed :
  compareVersions "v1.2" "v1.2.3" = Throw (TypeError "Invalid Version: 1.2").
Proof. vm_compute. reflexivity. Qed.

Example validateInstallation_examples :
  validateInstallation Fixtures.windows
    (Fixtures.windows_join ["C:"; "node"; "v20.0.0"]) = Normal true /\
  validateInstallation Fixtures.windows
    (Fixtures.windows_join ["C:"; "node"; "v18.0.0"]) = Normal false /\
  validateInstallation Sample.posix "/home/user/.ldesign/node/v20.0.0" = Normal false.
Proof. vm_compute. repeat split; reflexivity. Qed.

Example satisfiesVersion_examples :
  satisfiesVersion Fixtures.star_only "v20.1.0" "*" = Normal true /\
  satisfiesVersion Fixtures.star_only "v20.1.0-rc.1" "*" = Normal false /\
  satisfiesVersion Fixtures.star_only "not-a-version" "*" = Normal false /\
  satisfiesVersion Fixtures.star_only "v20.1.0" "not a range" = Normal false.
Proof. vm_compute. repeat split; reflexivity. Qed.

End Examples.
